(** * L1 data fee of a rollup transaction (core/types/rollup_l1_cost.go)

    A shallow embedding of [newL1CostFunc] and [FlzCompressLen], with the
    properties the specification states about them.

    Conventions.
    - A Go [uint32] or [uint64] is a [Z] in range; every arithmetic operation
      writes its wrap-around out ([wrap32], [wrap64]).
    - A [[]byte] is a [list byte]; indexing is stdpp's list lookup and an
      index outside the slice is the run-time panic of Go ([Panic]).
    - A [*big.Int] is a pointer into a store of integers; the methods of
      [big.Int] write their receiver. *)

From Stdlib Require Import ZArith Lia.
From Stdlib.Strings Require Import Byte.
From stdpp Require Import base list.

Local Open Scope Z_scope.

(** ** Outcomes *)

(** What running a piece of the code gives: a value, a Go run-time panic,
    or (for the loops of the model only) exhausted fuel. *)
Inductive result (A : Type) : Type :=
| Ok (x : A)
| Panic
| OutOfFuel.

Arguments Ok {A} x.
Arguments Panic {A}.
Arguments OutOfFuel {A}.

Definition bind {A B : Type} (c : result A) (k : A -> result B) : result B :=
  match c with
  | Ok x => k x
  | Panic => Panic
  | OutOfFuel => OutOfFuel
  end.

Notation "'let*' x ':=' c 'in' k" := (bind c (fun x => k))
  (at level 10, x pattern, c at level 200, k at level 200).

(** ** Fixed-width unsigned arithmetic *)

Definition wrap32 (x : Z) : Z := x mod 2 ^ 32.
Definition wrap64 (x : Z) : Z := x mod 2 ^ 64.

Definition add32 (x y : Z) : Z := wrap32 (x + y).
Definition sub32 (x y : Z) : Z := wrap32 (x - y).
Definition mul32 (x y : Z) : Z := wrap32 (x * y).
Definition shl32 (x k : Z) : Z := wrap32 (Z.shiftl x k).

Definition add64 (x y : Z) : Z := wrap64 (x + y).
Definition mul64 (x y : Z) : Z := wrap64 (x * y).

(** ** Slices *)

(** [ib[i]] for a byte slice, widened to an unsigned integer. *)
Definition index (ib : list byte) (i : Z) : result Z :=
  match ib !! Z.to_nat i with
  | Some x => Ok (Z.of_N (Byte.to_N x))
  | None => Panic
  end.

(** [ht[h]] and [ht[h] = v] for the table of offsets. *)
Definition ht_get (ht : list Z) (h : Z) : result Z :=
  match ht !! Z.to_nat h with
  | Some v => Ok v
  | None => Panic
  end.

Definition ht_set (ht : list Z) (h v : Z) : result (list Z) :=
  if h <? Z.of_nat (length ht) then Ok (<[Z.to_nat h := v]> ht) else Panic.

(** ** FlzCompressLen *)

(** The mask [m := uint32(0xffffff)] of the source. *)
Definition m : Z := 0xffffff.

(** The closure [u32]: the little-endian word at offset [i].  The offsets
    [i+1], [i+2], [i+3] are [uint32] sums. *)
Definition u32 (ib : list byte) (i : Z) : result Z :=
  let* b0 := index ib i in
  let* b1 := index ib (add32 i 1) in
  let* b2 := index ib (add32 i 2) in
  let* b3 := index ib (add32 i 3) in
  Ok (Z.lor (Z.lor (Z.lor b0 (shl32 b1 8)) (shl32 b2 16)) (shl32 b3 24)).

(** The closure [hash]. *)
Definition hash (x : Z) : Z :=
  Z.land (Z.shiftr (mul32 2654435769 x) 19) 8191.

(** The cost of a run of [r] literal bytes, as the closure [literals] adds
    it to a 32-bit counter. *)
Definition literals_cost (r : Z) : Z :=
  33 * (r / 32) + (if r mod 32 =? 0 then 0 else r mod 32 + 1).

(** The closure [literals]; it writes the captured counter [n], which the
    model passes in and returns.  Its parameter shadows the [r] of the
    enclosing function. *)
Definition literals (n r : Z) : Z :=
  let n := add32 n (mul32 33 (r / 32)) in
  let r := r mod 32 in
  if negb (r =? 0) then add32 n (add32 r 1) else n.

(** What the scan charges, in the order it charges it.  The log is ghost
    state: no branch of the code reads it. *)
Inductive event : Type :=
| Literal (run : Z)
| Match (r i d l : Z).

(** The top of the body of the inner loop, up to the test of [i >= b-9]:
    one probe of the table at offset [i].  Returns [s], [r], [d], [c] and
    the table after [ht[h] = i]. *)
Definition probe (ib : list byte) (ht : list Z) (i : Z)
  : result (Z * Z * Z * Z * list Z) :=
  let* w := u32 ib i in
  let s := Z.land w m in
  let h := hash s in
  let* r := ht_get ht h in
  let* ht := ht_set ht h i in
  let d := sub32 i r in
  let* c := (if d <? 8192
        then let* w' := u32 ib r in Ok (Z.land w' m)
        else Ok (add32 m 1)) in
  Ok (s, r, d, c, ht).

(** The inner loop [for { ... }].  It assigns [r] and [d] before any use,
    so their earlier values are not passed in. *)
Fixpoint scan (fuel : nat) (ib : list byte) (b : Z) (ht : list Z) (i : Z)
  : result (list Z * Z * Z * Z) :=
  match fuel with
  | O => OutOfFuel
  | S fuel' =>
      let* (s, r, d, c, ht) := probe ib ht i in
      if i >=? sub32 b 9 then Ok (ht, i, r, d)
      else
        let i := add32 i 1 in
        if s =? c then Ok (ht, i, r, d)
        else scan fuel' ib b ht i
  end.

(** The loop [for l < b-i && ib[r+l] == ib[i+l] { l++ }]. *)
Fixpoint extend (fuel : nat) (ib : list byte) (b r i l : Z) : result Z :=
  match fuel with
  | O => OutOfFuel
  | S fuel' =>
      if l <? sub32 b i then
        let* x := index ib (add32 r l) in
        let* y := index ib (add32 i l) in
        if x =? y then extend fuel' ib b r i (add32 l 1) else Ok l
      else Ok l
  end.

(** What one match of length [l] adds to the counter. *)
Definition match_cost (l : Z) : Z :=
  3 * (1 + (l - 3) / 262) - (if l <? 9 then 1 else 0).

(** The outer loop [for i < b-9 { ... }].  Returns the counter [n], the
    start [a] of the pending literal run, and the charges made. *)
Fixpoint outer (fuel : nat) (ib : list byte) (b n : Z) (ht : list Z)
    (a i : Z) : result (Z * Z * list event) :=
  if i <? sub32 b 9 then
    match fuel with
    | O => OutOfFuel
    | S fuel' =>
        let* (ht, i, r, d) := scan (S (length ib)) ib b ht i in
        if i >=? sub32 b 9 then Ok (n, a, [])
        else
          let i := sub32 i 1 in
          let lit := if i >? a then [Literal (sub32 i a)] else [] in
          let n := if i >? a then literals n (sub32 i a) else n in
          let* l := extend (S (length ib)) ib b r i 3 in
          let i0 := i in
          let i := add32 i (sub32 l 2) in
          let* s := u32 ib i in
          let d' := sub32 d 1 in
          let n := add32 n (mul32 3 (add32 1 (sub32 l 3 / 262))) in
          let n := if l <? 9 then sub32 n 1 else n in
          let* ht := ht_set ht (hash (Z.land s m)) i in
          let i := add32 i 1 in
          let* ht := ht_set ht (hash (Z.shiftr s 8)) i in
          let i := add32 i 1 in
          let a := i in
          let* (n, a, evs) := outer fuel' ib b n ht a i in
          Ok (n, a, lit ++ Match r i0 d l :: evs)
    end
  else Ok (n, a, []).

(** [FlzCompressLen] with its log of charges. *)
Definition FlzCompressLen_trace (ib : list byte) : result (Z * list event) :=
  let n := 0 in
  let b := sub32 (wrap32 (Z.of_nat (length ib))) 4 in
  let ht := replicate (Z.to_nat 8192) 0 in
  let a := 0 in
  let i := 2 in
  let* (n, a, evs) := outer (S (length ib)) ib b n ht a i in
  let run := sub32 (add32 b 4) a in
  Ok (literals n run, evs ++ [Literal run]).

Definition FlzCompressLen (ib : list byte) : result Z :=
  let* (n, _) := FlzCompressLen_trace ib in Ok n.

(** ** math/big *)

(** A [*big.Int] points into a store of integers.  The methods used by the
    fee code write their receiver and return it, as in Go. *)
Module big.

(** A [*big.Int]; [None] is [nil]. *)
Definition Int : Type := option nat.
Definition nil : Int := None.

Abbreviation heap := (list Z).

(** A computation on the store that may panic. *)
Definition M (A : Type) : Type := heap -> result (A * heap).

Definition ret {A : Type} (x : A) : M A := fun h => Ok (x, h).

Definition bnd {A B : Type} (c : M A) (k : A -> M B) : M B :=
  fun h => let* (x, h') := c h in k x h'.

Definition lift {A : Type} (c : result A) : M A :=
  fun h => let* x := c in Ok (x, h).

(** Reading through a pointer; [nil] panics. *)
Definition load (p : Int) : M Z := fun h =>
  match p with
  | Some k => match h !! k with Some v => Ok (v, h) | None => Panic end
  | None => Panic
  end.

(** Writing through a pointer; [nil] panics. *)
Definition write (p : Int) (v : Z) : M unit := fun h =>
  match p with
  | Some k => if (k <? length h)%nat then Ok (tt, <[k := v]> h) else Panic
  | None => Panic
  end.

(** [big.NewInt(x)]; [new(big.Int)] is [NewInt 0]. *)
Definition NewInt (x : Z) : M Int := fun h => Ok (Some (length h), h ++ [x]).

End big.

Notation "'do*' x ':=' c 'in' k" := (big.bnd c (fun x => k))
  (at level 10, x pattern, c at level 200, k at level 200).

Module bigops.
Import big.

(** [z.SetUint64(x)] *)
Definition SetUint64 (z : Int) (x : Z) : M Int :=
  do* _ := write z x in ret z.

(** [z.Set(x)] *)
Definition Set_ (z x : Int) : M Int :=
  do* vx := load x in
  do* _ := write z vx in ret z.

(** [z.Add(x, y)] *)
Definition Add (z x y : Int) : M Int :=
  do* vx := load x in
  do* vy := load y in
  do* _ := write z (vx + vy) in ret z.

(** [z.Mul(x, y)] *)
Definition Mul (z x y : Int) : M Int :=
  do* vx := load x in
  do* vy := load y in
  do* _ := write z (vx * vy) in ret z.

(** The quotient of Euclidean division, the one [big.Int.Div] computes:
    the remainder is never negative. *)
Definition ediv (x y : Z) : Z :=
  if 0 <? y then x / y else - (x / - y).

(** [z.Div(x, y)]; a zero divisor panics. *)
Definition Div (z x y : Int) : M Int :=
  do* vx := load x in
  do* vy := load y in
  if vy =? 0 then (fun _ => Panic)
  else do* _ := write z (ediv vx vy) in ret z.

End bigops.

(** ** params *)

Module params.

(** Modelled from the spec: params/protocol_params.go is not under src/;
    the spec gives ZERO_BYTE_GAS = 4 and NON_ZERO_BYTE_GAS = 16, the
    EIP-2028 constant. *)
Definition TxDataZeroGas : Z := 4.
Definition TxDataNonZeroGasEIP2028 : Z := 16.

(** Modelled from the spec: the struct behind the pointer
    [ChainConfig.Optimism] is not under src/; the fee code only tests the
    pointer against nil. *)
Inductive OptimismConfig : Type := optimismConfig.

(** Modelled from the spec: params.ChainConfig is not under src/.  The
    fee code uses the pointer [Optimism] (nil when the chain has no
    rollup fee) and the methods [IsRegolith] and [IsEclipse], which the
    spec takes as provided boolean-valued functions of the block time. *)
Record ChainConfig : Type := {
  Optimism : option OptimismConfig;
  IsRegolith : Z -> bool;
  IsEclipse : Z -> bool
}.

End params.

(** ** The fee function, current version (second half of the file) *)

Record L1CostData : Type := { data : list byte }.

Definition NewL1CostData (data : list byte) : L1CostData := {| data := data |}.

(** The loop [for _, b := range l1CostData.data] with its two [uint64]
    counters. *)
Definition count_bytes (data : list byte) : Z * Z :=
  fold_left
    (fun '(zeroes, ones) b =>
       if Byte.eqb b x00 then (add64 zeroes 1, ones) else (zeroes, add64 ones 1))
    data (0, 0).

(** The first half of the closure: the [uint64] variable [gas]. *)
Definition l1Gas (isRegolith isEclipse : bool) (l1CostData : L1CostData)
  : result Z :=
  if isEclipse then
    let* len := FlzCompressLen (data l1CostData) in
    Ok (mul64 len params.TxDataNonZeroGasEIP2028)
  else
    let '(zeroes, ones) := count_bytes (data l1CostData) in
    let gas := mul64 zeroes params.TxDataZeroGas in
    if isRegolith
    then Ok (add64 gas (mul64 ones params.TxDataNonZeroGasEIP2028))
    else Ok (add64 gas (mul64 (add64 ones 68) params.TxDataNonZeroGasEIP2028)).

(** The second half of the closure: from [gas] to the two results. *)
Definition l1Fee (l1BaseFee overhead scalar : big.Int) (gas : Z)
  : big.M (big.Int * big.Int) :=
  do* l1GasUsed := big.NewInt 0 in
  do* l1GasUsed := bigops.SetUint64 l1GasUsed gas in
  do* l1GasUsed := bigops.Add l1GasUsed l1GasUsed overhead in
  do* l1Cost := big.NewInt 0 in
  do* l1Cost := bigops.Set_ l1Cost l1GasUsed in
  do* t := bigops.Mul l1Cost l1GasUsed l1BaseFee in
  do* t := bigops.Mul t l1Cost scalar in
  do* million := big.NewInt 1000000 in
  do* _ := bigops.Div t l1Cost million in
  big.ret (l1Cost, l1GasUsed).

Definition l1CostFunc : Type := L1CostData -> big.M (big.Int * big.Int).

Definition newL1CostFunc (config : params.ChainConfig)
    (l1BaseFee overhead scalar : big.Int) (blockTime : Z) : l1CostFunc :=
  let isRegolith := params.IsRegolith config blockTime in
  let isEclipse := params.IsEclipse config blockTime in
  fun l1CostData =>
    match params.Optimism config with
    | None => big.ret (big.nil, big.nil)
    | Some _ =>
        do* gas := big.lift (l1Gas isRegolith isEclipse l1CostData) in
        l1Fee l1BaseFee overhead scalar gas
    end.

(** ** The fee function, earlier version (first half of the file) *)

Module Legacy.

Record L1CostData : Type := { zeroes : Z; ones : Z }.

Definition NewL1CostData (data : list byte) : L1CostData :=
  let '(zeroes, ones) := count_bytes data in
  {| zeroes := zeroes; ones := ones |}.

Definition l1Gas (isRegolith : bool) (l1CostData : L1CostData) : Z :=
  let gas := mul64 (zeroes l1CostData) params.TxDataZeroGas in
  if isRegolith
  then add64 gas (mul64 (ones l1CostData) params.TxDataNonZeroGasEIP2028)
  else add64 gas (mul64 (add64 (ones l1CostData) 68)
                        params.TxDataNonZeroGasEIP2028).

Definition l1CostFunc : Type := L1CostData -> big.M (big.Int * big.Int).

Definition newL1CostFunc (config : params.ChainConfig)
    (l1BaseFee overhead scalar : big.Int) (blockTime : Z) : l1CostFunc :=
  let isRegolith := params.IsRegolith config blockTime in
  fun l1CostData =>
    match params.Optimism config with
    | None => big.ret (big.nil, big.nil)
    | Some _ =>
        l1Fee l1BaseFee overhead scalar (l1Gas isRegolith l1CostData)
    end.

End Legacy.

(** ** Calling the fee function *)

(** What a caller sees of one call: the oracle values are put in a fresh
    store, as [TestRollupGasData] does with [big.NewInt], the closure is
    built and called once, and the two results are read through the
    returned pointers.  [None] is the pair of nil pointers. *)
Definition observe (r : big.Int * big.Int) : big.M (option (Z * Z)) :=
  match r with
  | (None, None) => big.ret None
  | (fee, gasUsed) =>
      do* f := big.load fee in
      do* g := big.load gasUsed in
      big.ret (Some (f, g))
  end.

Definition run {A : Type} (c : big.M A) : result A :=
  let* (x, _) := c [] in Ok x.

Definition L1Cost (config : params.ChainConfig) (l1BaseFee overhead scalar : Z)
    (blockTime : Z) (tx : L1CostData) : result (option (Z * Z)) :=
  run (do* basefee := big.NewInt l1BaseFee in
       do* overhead := big.NewInt overhead in
       do* scalar := big.NewInt scalar in
       do* r := newL1CostFunc config basefee overhead scalar blockTime tx in
       observe r).

Module LegacyCall.

Definition L1Cost (config : params.ChainConfig)
    (l1BaseFee overhead scalar : Z) (blockTime : Z)
    (tx : Legacy.L1CostData) : result (option (Z * Z)) :=
  run (do* basefee := big.NewInt l1BaseFee in
       do* overhead := big.NewInt overhead in
       do* scalar := big.NewInt scalar in
       do* r := Legacy.newL1CostFunc config basefee overhead scalar
                  blockTime tx in
       observe r).

End LegacyCall.

(** ** The test of the repository *)

(** The configuration of [TestRollupGasData]: a rollup chain whose
    [RegolithTime] is 1, so that Regolith is inactive at block time 0 and
    active from block time 1.  The test sets no Eclipse time. *)
Definition testConfig : params.ChainConfig :=
  {| params.Optimism := Some params.optimismConfig;
     params.IsRegolith := fun blockTime => 1 <=? blockTime;
     params.IsEclipse := fun _ => false |}.

(** Modelled from the spec: [Transaction.L1CostData] and the binary
    marshalling behind it are not under src/; the payload is the serialized
    transaction.  For [emptyTx] of the test (legacy, unsigned, nonce 0,
    the 20-byte recipient 095e7bae...552d87, value 0, gas 0, gas price 0, no
    data) that is an RLP list of nine items: a one-byte list header, the
    empty string 0x80 for each of the eight zero or empty fields, and
    0x94 followed by the recipient. *)
Definition emptyTx : list byte :=
  [xdd; x80; x80; x80; x94;
   x09; x5e; x7b; xae; xa6; xa6; xc7; xc4; xc2; xdf;
   xeb; x97; x7e; xfa; xc3; x26; xaf; x55; x2d; x87;
   x80; x80; x80; x80; x80].

(** A rollup chain with Eclipse active at every block time. *)
Definition eclipseConfig (isRegolith : bool) : params.ChainConfig :=
  {| params.Optimism := Some params.optimismConfig;
     params.IsRegolith := fun _ => isRegolith;
     params.IsEclipse := fun _ => true |}.

(** A chain without the rollup fee. *)
Definition plainConfig : params.ChainConfig :=
  {| params.Optimism := None;
     params.IsRegolith := fun _ => false;
     params.IsEclipse := fun _ => false |}.

(** Sample payloads: forty times the byte 7, and two copies of a 16-byte
    marker separated by a run of [gap] zero bytes. *)
Definition sevens : list byte := replicate 40 x07.

Definition marker : list byte :=
  [x01; x02; x03; x04; x05; x06; x07; x08;
   x09; x0a; x0b; x0c; x0d; x0e; x0f; x10].

Definition far_input (gap : Z) : list byte :=
  marker ++ replicate (Z.to_nat gap) x00 ++ marker ++ replicate 16 x00.

(** ** The public constructor *)

Module common.

(** Modelled from the spec: the package common is not under src/.  A
    [common.Hash] is a 32-byte word, taken as the natural number it holds
    in big-endian order: that is the number [Hash.Big] returns and the
    number [BigToHash] stores.  A [common.Address] is likewise the number
    its 20 bytes hold. *)
Definition Hash : Type := N.
Definition Address : Type := N.

Definition BigToHash (x : N) : Hash := x.
Definition Big (h : Hash) : big.M big.Int := big.NewInt (Z.of_N h).

End common.

(** The interface [StateGetter]. *)
Record StateGetter : Type := {
  GetState : common.Address -> common.Hash -> common.Hash
}.

Definition L1BaseFeeSlot : common.Hash := common.BigToHash 1.
Definition OverheadSlot : common.Hash := common.BigToHash 5.
Definition ScalarSlot : common.Hash := common.BigToHash 6.

Definition L1BlockAddr : common.Address :=
  0x4200000000000000000000000000000000000015%N.

Definition L1CostFunc : Type := L1CostData -> big.M big.Int.

Definition NewL1CostFunc (config : params.ChainConfig) (statedb : StateGetter)
    (blockTime : Z) : big.M L1CostFunc :=
  do* l1BaseFee := common.Big (GetState statedb L1BlockAddr L1BaseFeeSlot) in
  do* overhead := common.Big (GetState statedb L1BlockAddr OverheadSlot) in
  do* scalar := common.Big (GetState statedb L1BlockAddr ScalarSlot) in
  let f := newL1CostFunc config l1BaseFee overhead scalar blockTime in
  big.ret (fun l1CostData =>
             do* r := f l1CostData in
             big.ret (fst r)).

(** What a caller sees of the public function: the closure is built from
    the state and called once; [None] is the nil pointer. *)
Definition L1CostOf (config : params.ChainConfig) (statedb : StateGetter)
    (blockTime : Z) (tx : L1CostData) : result (option Z) :=
  run (do* f := NewL1CostFunc config statedb blockTime in
       do* fee := f tx in
       match fee with
       | None => big.ret None
       | Some _ => do* v := big.load fee in big.ret (Some v)
       end).

(** A state whose three oracle slots hold the given numbers and every
    other slot the number [other]. *)
Definition oracleState (l1BaseFee overhead scalar other : N) : StateGetter :=
  {| GetState := fun addr slot =>
       if (addr =? L1BlockAddr)%N then
         if (slot =? 1)%N then l1BaseFee
         else if (slot =? 5)%N then overhead
         else if (slot =? 6)%N then scalar
         else other
       else other |}.

(** ** The transaction logger (tracer "txlogger") *)

Module vm.

(** The opcode constants named by [OnOpcode].  core/vm/opcodes.go is not
    under src/, so their values are parameters of the model.  [op] is a
    [byte] and [vm.OpCode(op)] keeps its value. *)
Record OpCodes : Type := {
  SLOAD : byte; BALANCE : byte; EXTCODEHASH : byte; EXTCODESIZE : byte;
  EXTCODECOPY : byte;
  SSTORE : byte;
  LOG0 : byte; LOG1 : byte; LOG2 : byte; LOG3 : byte; LOG4 : byte;
  CALL : byte; CALLCODE : byte; DELEGATECALL : byte; STATICCALL : byte;
  CREATE : byte; CREATE2 : byte
}.

(** The five [case] lists of the switch. *)
Definition read_ops (c : OpCodes) : list byte :=
  [SLOAD c; BALANCE c; EXTCODEHASH c; EXTCODESIZE c; EXTCODECOPY c].
Definition write_ops (c : OpCodes) : list byte := [SSTORE c].
Definition log_ops (c : OpCodes) : list byte :=
  [LOG0 c; LOG1 c; LOG2 c; LOG3 c; LOG4 c].
Definition call_ops (c : OpCodes) : list byte :=
  [CALL c; CALLCODE c; DELEGATECALL c; STATICCALL c].
Definition create_ops (c : OpCodes) : list byte := [CREATE c; CREATE2 c].

(** All seventeen; the Go compiler rejects a switch in which two of them
    are equal. *)
Definition all (c : OpCodes) : list byte :=
  read_ops c ++ write_ops c ++ log_ops c ++ call_ops c ++ create_ops c.

(** The values the constants have in the EVM instruction set. *)
Definition evm : OpCodes :=
  {| SLOAD := x54; BALANCE := x31; EXTCODEHASH := x3f; EXTCODESIZE := x3b;
     EXTCODECOPY := x3c;
     SSTORE := x55;
     LOG0 := xa0; LOG1 := xa1; LOG2 := xa2; LOG3 := xa3; LOG4 := xa4;
     CALL := xf1; CALLCODE := xf2; DELEGATECALL := xf4; STATICCALL := xfa;
     CREATE := xf0; CREATE2 := xf5 |}.

End vm.

(** A Go [int64]: the value of a 64-bit pattern read in two's
    complement. *)
Definition int64 (x : Z) : Z := (x + 2 ^ 63) mod 2 ^ 64 - 2 ^ 63.

Module live.

Record txloggerConfig : Type := { MaxAge : Z }.

Section tracer.

(** [types.Transaction] is not under src/; the tracer only stores the
    pointer and tests it against nil. *)
Variable Transaction : Type.
Variable codes : vm.OpCodes.

(** The struct [txlogger].  [start] is a [time.Time]; of it the modelled
    hooks use [Unix()] only, the seconds since the epoch, which is what
    the field holds here. *)
Record txlogger : Type := {
  config : txloggerConfig;
  tx : option Transaction;
  from : common.Address;
  start : Z;
  reads : Z;
  writes : Z;
  calls : Z;
  logs : Z;
  creates : Z;
  faults : Z
}.

Definition is_case (op : byte) (cases : list byte) : bool :=
  existsb (Byte.eqb op) cases.

Definition OnOpcode (t : txlogger) (op : byte) : txlogger :=
  match tx t with
  | None => t
  | Some _ =>
      if is_case op (vm.read_ops codes) then
        {| config := config t; tx := tx t; from := from t; start := start t;
           reads := add64 (reads t) 1; writes := writes t; calls := calls t;
           logs := logs t; creates := creates t; faults := faults t |}
      else if is_case op (vm.write_ops codes) then
        {| config := config t; tx := tx t; from := from t; start := start t;
           reads := reads t; writes := add64 (writes t) 1; calls := calls t;
           logs := logs t; creates := creates t; faults := faults t |}
      else if is_case op (vm.log_ops codes) then
        {| config := config t; tx := tx t; from := from t; start := start t;
           reads := reads t; writes := writes t; calls := calls t;
           logs := add64 (logs t) 1; creates := creates t;
           faults := faults t |}
      else if is_case op (vm.call_ops codes) then
        {| config := config t; tx := tx t; from := from t; start := start t;
           reads := reads t; writes := writes t; calls := add64 (calls t) 1;
           logs := logs t; creates := creates t; faults := faults t |}
      else if is_case op (vm.create_ops codes) then
        {| config := config t; tx := tx t; from := from t; start := start t;
           reads := reads t; writes := writes t; calls := calls t;
           logs := logs t; creates := add64 (creates t) 1;
           faults := faults t |}
      else t
  end.

Definition OnFault (t : txlogger) : txlogger :=
  {| config := config t; tx := tx t; from := from t; start := start t;
     reads := reads t; writes := writes t; calls := calls t;
     logs := logs t; creates := creates t; faults := add64 (faults t) 1 |}.

(** [OnTxStart]; [now] is the [Unix()] of [time.Now()], [vmTime] the
    [uint64] field [vm.Time]. *)
Definition OnTxStart (t : txlogger) (now vmTime : Z)
    (tx' : option Transaction) (from' : common.Address) : txlogger :=
  if int64 (now - int64 vmTime) >? int64 (MaxAge (config t)) then
    {| config := config t; tx := None; from := from t; start := now;
       reads := reads t; writes := writes t; calls := calls t;
       logs := logs t; creates := creates t; faults := faults t |}
  else
    {| config := config t; tx := tx'; from := from'; start := now;
       reads := 0; writes := 0; calls := 0; logs := 0; creates := 0;
       faults := 0 |}.

(** What the EVM reports between [OnTxStart] and [OnTxEnd]. *)
Inductive hook : Type :=
| Opcode (op : byte)
| Fault.

Definition step (t : txlogger) (e : hook) : txlogger :=
  match e with
  | Opcode op => OnOpcode t op
  | Fault => OnFault t
  end.

Definition steps (t : txlogger) (es : list hook) : txlogger :=
  fold_left step es t.

(** The number of reported opcodes that are among [cases], and the number
    of reported faults. *)
Definition count_ops (cases : list byte) (es : list hook) : Z :=
  Z.of_nat (length (List.filter
    (fun e => match e with Opcode op => is_case op cases | Fault => false end)
    es)).

Definition count_faults (es : list hook) : Z :=
  Z.of_nat (length (List.filter
    (fun e => match e with Opcode _ => false | Fault => true end) es)).

End tracer.

Arguments config {Transaction} _.
Arguments tx {Transaction} _.
Arguments from {Transaction} _.
Arguments start {Transaction} _.
Arguments reads {Transaction} _.
Arguments writes {Transaction} _.
Arguments calls {Transaction} _.
Arguments logs {Transaction} _.
Arguments creates {Transaction} _.
Arguments faults {Transaction} _.
Arguments OnOpcode {Transaction} codes t op.
Arguments OnFault {Transaction} t.
Arguments OnTxStart {Transaction} t now vmTime tx' from'.
Arguments step {Transaction} codes t e.
Arguments steps {Transaction} codes t es.

End live.

(** A tracer as [newTxLoggerTracer] builds it, [&txlogger{config: config}],
    with the given [MaxAge]: every other field has its zero value, which
    for [start] is the time whose [Unix()] is -62135596800. *)
Definition newLogger (maxAge : Z) : live.txlogger unit :=
  {| live.config := {| live.MaxAge := maxAge |}; live.tx := None;
     live.from := 0%N; live.start := -62135596800;
     live.reads := 0; live.writes := 0; live.calls := 0; live.logs := 0;
     live.creates := 0; live.faults := 0 |}.

(** ** Vocabulary of the statements *)

(** The number of zero bytes and of non-zero bytes of a payload. *)
Definition zero_count (data : list byte) : Z :=
  Z.of_nat (length (List.filter (fun b => Byte.eqb b x00) data)).

Definition nonzero_count (data : list byte) : Z :=
  Z.of_nat (length (List.filter (fun b => negb (Byte.eqb b x00)) data)).

Fixpoint sumZ (l : list Z) : Z :=
  match l with
  | [] => 0
  | x :: l => x + sumZ l
  end.

(** The charge of one event, by the two cost rules. *)
Definition cost (e : event) : Z :=
  match e with
  | Literal run => literals_cost run
  | Match _ _ _ l => match_cost l
  end.

(** The number of input bytes an event accounts for. *)
Definition span (e : event) : Z :=
  match e with
  | Literal run => run
  | Match _ _ _ l => l
  end.

(** The 24-bit windows at offsets [r] and [i] can be read and are equal. *)
Definition same_window (ib : list byte) (r i : Z) : Prop :=
  exists w w', u32 ib i = Ok w /\ u32 ib r = Ok w' /\ Z.land w m = Z.land w' m.

(** What holds of every charge in a log. *)
Definition accepted (ib : list byte) (e : event) : Prop :=
  match e with
  | Literal run => 0 <= run < 2 ^ 32
  | Match r i d l =>
      0 <= r /\ 0 <= i < 2 ^ 32 /\ d = sub32 i r /\ d < 8192 /\
      i - r < 8192 /\ same_window ib r i /\ 3 <= l < 2 ^ 32
  end.

(** The table has its 8192 slots and every slot holds an offset not beyond
    [i]; the zero of a fresh table is such an offset. *)
Definition table_ok (ht : list Z) (i : Z) : Prop :=
  length ht = Z.to_nat 8192 /\ Forall (fun r => 0 <= r <= i) ht.

(** The [l] bytes from offset [r] and the [l] bytes from offset [i] lie in
    the input and are the same. *)
Definition same_bytes (ib : list byte) (r i l : Z) : Prop :=
  forall k, 0 <= k < l ->
    exists x, ib !! Z.to_nat (r + k) = Some x /\
              ib !! Z.to_nat (i + k) = Some x.

(** The log read as a parse of the input from offset [pos] to offset
    [pos']: a literal run is not empty; a match starts where the previous
    event stopped, refers back to an earlier offset less than 8192 bytes
    away, and repeats the bytes found there. *)
Fixpoint tiles (ib : list byte) (pos : Z) (evs : list event) (pos' : Z)
  : Prop :=
  match evs with
  | [] => pos = pos'
  | Literal run :: evs => 1 <= run /\ tiles ib (pos + run) evs pos'
  | Match r i d l :: evs =>
      i = pos /\ 0 <= r < i /\ d = i - r /\ d < 8192 /\ 3 <= l /\
      same_bytes ib r i l /\ tiles ib (pos + l) evs pos'
  end.

(** An LZ77 stream: literal bytes, and copies of [l] bytes from [d] bytes
    back in the output. *)
Inductive token : Type :=
| Lit (bytes : list byte)
| Copy (d l : nat).

(** Copying byte by byte, so that a copy may overlap its own output. *)
Fixpoint copy (l d : nat) (out : list byte) : option (list byte) :=
  match l with
  | O => Some out
  | S l' =>
      if ((1 <=? d) && (d <=? length out))%nat then
        match out !! (length out - d)%nat with
        | Some x => copy l' d (out ++ [x])
        | None => None
        end
      else None
  end.

Fixpoint decode (ts : list token) (out : list byte) : option (list byte) :=
  match ts with
  | [] => Some out
  | Lit bytes :: ts => decode ts (out ++ bytes)
  | Copy d l :: ts =>
      match copy l d out with
      | Some out' => decode ts out'
      | None => None
      end
  end.

(** The stream a log stands for: a literal run carries the input bytes it
    covers, a match its distance and length. *)
Fixpoint tokens (ib : list byte) (pos : Z) (evs : list event) : list token :=
  match evs with
  | [] => []
  | Literal run :: evs =>
      Lit (take (Z.to_nat run) (drop (Z.to_nat pos) ib))
      :: tokens ib (pos + run) evs
  | Match r i d l :: evs =>
      Copy (Z.to_nat d) (Z.to_nat l) :: tokens ib (pos + l) evs
  end.

(** Every slot of the table holds an offset before [i]. *)
Definition table_lt (ht : list Z) (i : Z) : Prop :=
  Forall (fun r => 0 <= r < i) ht.

(** * Properties *)

(** ** The store *)

Section store.
Import big bigops.

Lemma load_app (h t : list Z) (k : nat) (v : Z) :
  h !! k = Some v -> load (Some k) (h ++ t) = Ok (v, h ++ t).
Proof.
  intros Hk. unfold load.
  rewrite lookup_app_l by (eapply lookup_lt_Some; eauto).
  now rewrite Hk.
Qed.

Lemma load_end (h t : list Z) (v : Z) :
  load (Some (length h)) (h ++ v :: t) = Ok (v, h ++ v :: t).
Proof. unfold load. now rewrite list_lookup_middle. Qed.

Lemma load_end1 (h t : list Z) (v w : Z) :
  load (Some (S (length h))) (h ++ v :: w :: t) = Ok (w, h ++ v :: w :: t).
Proof.
  unfold load.
  replace (h ++ v :: w :: t) with ((h ++ [v]) ++ w :: t)
    by now rewrite <- app_assoc.
  rewrite list_lookup_middle; [reflexivity|].
  rewrite length_app. simpl. lia.
Qed.

Lemma write_end (h t : list Z) (v w : Z) :
  write (Some (length h)) w (h ++ v :: t) = Ok (tt, h ++ w :: t).
Proof.
  unfold write.
  assert (Hlt : (length h <? length (h ++ v :: t))%nat = true).
  { apply Nat.ltb_lt. rewrite length_app. simpl. lia. }
  rewrite Hlt. f_equal. f_equal.
  replace (length h) with (length h + 0)%nat by lia.
  now rewrite insert_app_r.
Qed.

Lemma write_end1 (h t : list Z) (u v w : Z) :
  write (Some (S (length h))) w (h ++ u :: v :: t) = Ok (tt, h ++ u :: w :: t).
Proof.
  unfold write.
  assert (Hlt : (S (length h) <? length (h ++ u :: v :: t))%nat = true).
  { apply Nat.ltb_lt. rewrite length_app. simpl. lia. }
  rewrite Hlt. f_equal. f_equal.
  replace (S (length h)) with (length h + 1)%nat by lia.
  now rewrite insert_app_r.
Qed.

(** One call of the second half of the closure, from any store in which
    the three oracle pointers can be read.  The pointers may alias one
    another.  The store grows by three cells and no earlier cell is
    written: the oracle values survive the call. *)
Lemma l1Fee_run (h : list Z) (kb ko ks : nat) (base ov sc gas : Z) :
  h !! kb = Some base -> h !! ko = Some ov -> h !! ks = Some sc ->
  l1Fee (Some kb) (Some ko) (Some ks) gas h =
    Ok ((Some (S (length h)), Some (length h)),
        h ++ [gas + ov; (gas + ov) * base * sc / 1000000; 1000000]).
Proof.
  intros Hb Ho Hs.
  unfold l1Fee, NewInt, SetUint64, Set_, Add, Mul, Div, bnd, ret.
  cbn [bind].
  rewrite (write_end h [] 0 gas). cbn [bind].
  rewrite (load_end h [] gas). cbn [bind].
  rewrite (load_app h [gas] ko ov Ho). cbn [bind].
  rewrite (write_end h [] gas (gas + ov)). cbn [bind].
  rewrite length_app. cbn [length]. rewrite Nat.add_1_r.
  rewrite <- app_assoc. cbn [app].
  rewrite (load_end h [0] (gas + ov)). cbn [bind].
  rewrite (write_end1 h [] (gas + ov) 0 (gas + ov)). cbn [bind].
  rewrite (load_end h [gas + ov] (gas + ov)). cbn [bind].
  rewrite (load_app h [gas + ov; gas + ov] kb base Hb). cbn [bind].
  rewrite (write_end1 h [] (gas + ov) (gas + ov) ((gas + ov) * base)).
  cbn [bind].
  rewrite (load_end1 h [] (gas + ov) ((gas + ov) * base)). cbn [bind].
  rewrite (load_app h [gas + ov; (gas + ov) * base] ks sc Hs). cbn [bind].
  rewrite (write_end1 h [] (gas + ov) ((gas + ov) * base)
             ((gas + ov) * base * sc)).
  cbn [bind].
  rewrite <- app_assoc. cbn [app].
  rewrite (load_end1 h [1000000] (gas + ov) ((gas + ov) * base * sc)).
  cbn [bind].
  replace (h ++ [gas + ov; (gas + ov) * base * sc; 1000000])
    with ((h ++ [gas + ov; (gas + ov) * base * sc]) ++ [1000000])
    by now rewrite <- app_assoc.
  replace (S (S (length h)))
    with (length (h ++ [gas + ov; (gas + ov) * base * sc]))
    by (rewrite length_app; simpl; lia).
  rewrite (load_end (h ++ [gas + ov; (gas + ov) * base * sc]) [] 1000000).
  cbn [bind]. cbn [Z.eqb].
  rewrite <- app_assoc. cbn [app].
  rewrite (write_end1 h [1000000] (gas + ov) ((gas + ov) * base * sc)
             (ediv ((gas + ov) * base * sc) 1000000)).
  cbn [bind]. unfold ediv. cbn [Z.ltb Z.compare]. reflexivity.
Qed.

End store.

(** ** The fee formula *)

Lemma observe_live (h : list Z) (kf kg : nat) (f g : Z) :
  h !! kf = Some f -> h !! kg = Some g ->
  observe (Some kf, Some kg) h = Ok (Some (f, g), h).
Proof.
  intros Hf Hg. unfold observe, big.bnd, big.load, big.ret.
  rewrite Hf. cbn [bind]. rewrite Hg. reflexivity.
Qed.

(** A call with the gate on: the result is a function of [gas] alone. *)
Lemma L1Cost_on (config : params.ChainConfig) (base ov sc t : Z)
    (tx : L1CostData) :
  params.Optimism config <> None ->
  L1Cost config base ov sc t tx =
    let* gas := l1Gas (params.IsRegolith config t) (params.IsEclipse config t) tx in
    Ok (Some ((gas + ov) * base * sc / 1000000, gas + ov)).
Proof.
  intros Hon. unfold L1Cost, run, newL1CostFunc.
  destruct (params.Optimism config) as [o|]; [clear Hon|congruence].
  unfold big.bnd at 1 2 3 4. unfold big.NewInt. cbn [bind length app].
  unfold big.bnd, big.lift.
  destruct (l1Gas _ _ tx) as [gas| |]; cbn [bind]; [|reflexivity..].
  rewrite (l1Fee_run [base; ov; sc] 0 1 2 base ov sc gas) by reflexivity.
  cbn [bind length app].
  now rewrite (observe_live _ 4 3 ((gas + ov) * base * sc / 1000000) (gas + ov)).
Qed.

Lemma Legacy_L1Cost_on (config : params.ChainConfig) (base ov sc t : Z)
    (tx : Legacy.L1CostData) :
  params.Optimism config <> None ->
  LegacyCall.L1Cost config base ov sc t tx =
    let gas := Legacy.l1Gas (params.IsRegolith config t) tx in
    Ok (Some ((gas + ov) * base * sc / 1000000, gas + ov)).
Proof.
  intros Hon. unfold LegacyCall.L1Cost, run, Legacy.newL1CostFunc.
  destruct (params.Optimism config) as [o|]; [clear Hon|congruence].
  unfold big.bnd at 1 2 3 4. unfold big.NewInt. cbn [bind length app].
  rewrite (l1Fee_run [base; ov; sc] 0 1 2 base ov sc) by reflexivity.
  cbn [bind length app].
  set (gas := Legacy.l1Gas _ tx).
  now rewrite (observe_live _ 4 3 ((gas + ov) * base * sc / 1000000) (gas + ov)).
Qed.

(** With the gate off nothing is computed at all: the call returns the two
    nil pointers and leaves the store as it was. *)
Lemma newL1CostFunc_off (config : params.ChainConfig) (pb po ps : big.Int)
    (t : Z) (tx : L1CostData) (h : list Z) :
  params.Optimism config = None ->
  newL1CostFunc config pb po ps t tx h = Ok ((big.nil, big.nil), h).
Proof. intros Hoff. unfold newL1CostFunc. now rewrite Hoff. Qed.

Lemma L1Cost_off (config : params.ChainConfig) (base ov sc t : Z)
    (tx : L1CostData) :
  params.Optimism config = None ->
  L1Cost config base ov sc t tx = Ok None.
Proof.
  intros Hoff. unfold L1Cost, run.
  unfold big.bnd at 1 2 3 4. unfold big.NewInt. cbn [bind length app].
  now rewrite newL1CostFunc_off.
Qed.

(** ** Counting bytes *)

Lemma count_total (data : list byte) :
  zero_count data + nonzero_count data = Z.of_nat (length data).
Proof.
  unfold zero_count, nonzero_count.
  induction data as [|x data IH]; [reflexivity|].
  cbn [List.filter]. destruct (Byte.eqb x x00); cbn [negb length]; lia.
Qed.

Lemma zero_count_nonneg (data : list byte) : 0 <= zero_count data.
Proof. unfold zero_count. lia. Qed.

Lemma nonzero_count_nonneg (data : list byte) : 0 <= nonzero_count data.
Proof. unfold nonzero_count. lia. Qed.

Lemma wrap64_succ (x : Z) : add64 (wrap64 x) 1 = wrap64 (x + 1).
Proof. unfold add64, wrap64. now rewrite Zplus_mod_idemp_l. Qed.

Lemma count_bytes_from (data : list byte) (z o : Z) :
  fold_left
    (fun '(zeroes, ones) b =>
       if Byte.eqb b x00 then (add64 zeroes 1, ones) else (zeroes, add64 ones 1))
    data (wrap64 z, wrap64 o)
  = (wrap64 (z + zero_count data), wrap64 (o + nonzero_count data)).
Proof.
  revert z o. induction data as [|x data IH]; intros z o.
  - unfold zero_count, nonzero_count. cbn. now rewrite !Z.add_0_r.
  - cbn [fold_left]. unfold zero_count, nonzero_count in *.
    cbn [List.filter]. destruct (Byte.eqb x x00); cbn [negb length].
    + rewrite wrap64_succ, IH. f_equal. f_equal. lia.
    + rewrite wrap64_succ, IH. f_equal. f_equal. lia.
Qed.

(** The loop counts the two kinds of bytes, modulo 2^64. *)
Lemma count_bytes_spec (data : list byte) :
  count_bytes data = (wrap64 (zero_count data), wrap64 (nonzero_count data)).
Proof.
  unfold count_bytes. change (0, 0) with (wrap64 0, wrap64 0).
  now rewrite count_bytes_from.
Qed.

Lemma wrap64_small (x : Z) : 0 <= x < 2 ^ 64 -> wrap64 x = x.
Proof. intros H. unfold wrap64. now apply Z.mod_small. Qed.

Lemma wrap32_small (x : Z) : 0 <= x < 2 ^ 32 -> wrap32 x = x.
Proof. intros H. unfold wrap32. now apply Z.mod_small. Qed.

Lemma wrap32_range (x : Z) : 0 <= wrap32 x < 2 ^ 32.
Proof. unfold wrap32. apply Z.mod_pos_bound. lia. Qed.

Lemma wrap64_range (x : Z) : 0 <= wrap64 x < 2 ^ 64.
Proof. unfold wrap64. apply Z.mod_pos_bound. lia. Qed.

(** The gas of the two byte-counting regimes, for a payload short enough
    that no [uint64] operation wraps. *)
Lemma l1Gas_counting (isRegolith : bool) (tx : L1CostData) :
  Z.of_nat (length (data tx)) + 68 < 2 ^ 60 ->
  l1Gas isRegolith false tx =
    Ok (if isRegolith
        then zero_count (data tx) * 4 + nonzero_count (data tx) * 16
        else zero_count (data tx) * 4 + (nonzero_count (data tx) + 68) * 16).
Proof.
  intros Hlen. unfold l1Gas. rewrite count_bytes_spec.
  pose proof (count_total (data tx)) as Ht.
  pose proof (zero_count_nonneg (data tx)) as Hz.
  pose proof (nonzero_count_nonneg (data tx)) as Ho.
  unfold params.TxDataZeroGas, params.TxDataNonZeroGasEIP2028.
  unfold add64, mul64.
  rewrite (wrap64_small (zero_count (data tx))) by lia.
  rewrite (wrap64_small (nonzero_count (data tx))) by lia.
  rewrite (wrap64_small (zero_count (data tx) * 4)) by lia.
  destruct isRegolith.
  - rewrite (wrap64_small (nonzero_count (data tx) * 16)) by lia.
    now rewrite wrap64_small by lia.
  - rewrite (wrap64_small (nonzero_count (data tx) + 68)) by lia.
    rewrite (wrap64_small ((nonzero_count (data tx) + 68) * 16)) by lia.
    now rewrite wrap64_small by lia.
Qed.

(** Without Eclipse the gas is always computed: the byte-counting regimes
    cannot panic. *)
Lemma l1Gas_counting_ok (isRegolith : bool) (tx : L1CostData) :
  exists gas, l1Gas isRegolith false tx = Ok gas /\ 0 <= gas < 2 ^ 64.
Proof.
  unfold l1Gas. destruct (count_bytes (data tx)) as [z o].
  destruct isRegolith; eexists; (split; [reflexivity|apply wrap64_range]).
Qed.

(** The current version, before Eclipse, computes what the earlier version
    computed. *)
Lemma l1Gas_legacy (isRegolith : bool) (bytes : list byte) :
  l1Gas isRegolith false (NewL1CostData bytes) =
    Ok (Legacy.l1Gas isRegolith (Legacy.NewL1CostData bytes)).
Proof.
  unfold l1Gas, Legacy.l1Gas, Legacy.NewL1CostData, NewL1CostData.
  cbn [data]. destruct (count_bytes bytes) as [z o].
  now destruct isRegolith.
Qed.

(** ** Arithmetic modulo 2^32 *)

Lemma wrap32_idem (x : Z) : wrap32 (wrap32 x) = wrap32 x.
Proof. unfold wrap32. apply Z.mod_mod. lia. Qed.

Lemma wrap32_add_l (x y : Z) : wrap32 (wrap32 x + y) = wrap32 (x + y).
Proof. unfold wrap32. apply Zplus_mod_idemp_l. Qed.

Lemma wrap32_add_r (x y : Z) : wrap32 (x + wrap32 y) = wrap32 (x + y).
Proof. unfold wrap32. apply Zplus_mod_idemp_r. Qed.

Lemma wrap32_sub_l (x y : Z) : wrap32 (wrap32 x - y) = wrap32 (x - y).
Proof. unfold wrap32. apply Zminus_mod_idemp_l. Qed.

Lemma wrap32_mul_r (x y : Z) : wrap32 (x * wrap32 y) = wrap32 (x * y).
Proof. unfold wrap32. apply Zmult_mod_idemp_r. Qed.

Lemma add32_range (x y : Z) : 0 <= add32 x y < 2 ^ 32.
Proof. apply wrap32_range. Qed.

Lemma sub32_range (x y : Z) : 0 <= sub32 x y < 2 ^ 32.
Proof. apply wrap32_range. Qed.

Lemma add32_small (x y : Z) : 0 <= x + y < 2 ^ 32 -> add32 x y = x + y.
Proof. apply wrap32_small. Qed.

Lemma sub32_small (x y : Z) : 0 <= x - y < 2 ^ 32 -> sub32 x y = x - y.
Proof. apply wrap32_small. Qed.

(** ** Inverting a computation that returned *)

Lemma bind_Ok {A B : Type} (c : result A) (k : A -> result B) (y : B) :
  bind c k = Ok y -> exists x, c = Ok x /\ k x = Ok y.
Proof. destruct c; cbn; intros H; try discriminate. eauto. Qed.

Ltac bind_inv H x Hx :=
  apply bind_Ok in H; destruct H as [x [Hx H]].

(** ** The hash *)

Lemma land_m (w : Z) : Z.land w m = w mod 2 ^ 24.
Proof. change m with (Z.ones 24). apply Z.land_ones. lia. Qed.

Lemma land_m_range (w : Z) : 0 <= Z.land w m < 2 ^ 24.
Proof. rewrite land_m. apply Z.mod_pos_bound. lia. Qed.

Lemma hash_mod (x : Z) :
  hash x = Z.shiftr ((2654435769 * x) mod 2 ^ 32) 19 mod 8192.
Proof.
  unfold hash, mul32, wrap32. change 8191 with (Z.ones 13).
  rewrite Z.land_ones by lia. reflexivity.
Qed.

Lemma hash_range (x : Z) : 0 <= hash x < 8192.
Proof. rewrite hash_mod. apply Z.mod_pos_bound. lia. Qed.

Lemma hash_div (x : Z) : hash x = (2654435769 * x) mod 2 ^ 32 / 2 ^ 19.
Proof.
  rewrite hash_mod, Z.shiftr_div_pow2 by lia.
  apply Z.mod_small.
  pose proof (Z.mod_pos_bound (2654435769 * x) (2 ^ 32) ltac:(lia)) as Hb.
  split.
  - apply Z.div_pos; lia.
  - apply Z.div_lt_upper_bound; lia.
Qed.

(** C5.  The hash of [FlzCompressLen] is the product with 2654435769
    reduced modulo 2^32, shifted right by 19 bits, and reduced modulo the
    table size 8192; the last reduction never changes the value, which is
    the top 13 bits of the wrapped product.  This holds for every argument,
    in particular for every 32-bit value. *)
Theorem hash_is_wrapping_multiplicative (x : Z) :
  hash x = Z.shiftr ((2654435769 * x) mod 2 ^ 32) 19 mod 8192 /\
  hash x = (2654435769 * x) mod 2 ^ 32 / 2 ^ 19 /\
  0 <= hash x < 8192.
Proof. split; [apply hash_mod|]. split; [apply hash_div|apply hash_range]. Qed.

Example hash_of_one : hash 1 = 5062.
Proof. reflexivity. Qed.

Example hash_of_mask : hash 0xffffff = 857.
Proof. reflexivity. Qed.

(** ** What the scan charges *)

Lemma sumZ_app (l1 l2 : list Z) : sumZ (l1 ++ l2) = sumZ l1 + sumZ l2.
Proof.
  induction l1 as [|x l1 IH]; cbn [app sumZ]; [reflexivity|]. rewrite IH. lia.
Qed.

Lemma literals_charge (n r : Z) : literals n r = wrap32 (n + literals_cost r).
Proof.
  unfold literals, literals_cost, add32, mul32. cbv zeta.
  destruct (r mod 32 =? 0); cbn [negb].
  - rewrite wrap32_add_r. f_equal. lia.
  - rewrite wrap32_add_r, wrap32_add_l.
    rewrite (Z.add_comm n), <- Z.add_assoc, wrap32_add_l. f_equal. lia.
Qed.

Lemma match_charge (n l : Z) :
  3 <= l < 2 ^ 32 ->
  (if l <? 9
   then sub32 (add32 n (mul32 3 (add32 1 (sub32 l 3 / 262)))) 1
   else add32 n (mul32 3 (add32 1 (sub32 l 3 / 262))))
  = wrap32 (n + match_cost l).
Proof.
  intros Hl. unfold match_cost.
  rewrite (sub32_small l 3) by lia.
  unfold add32, mul32, sub32.
  rewrite wrap32_mul_r, wrap32_add_r.
  destruct (l <? 9).
  - rewrite wrap32_sub_l. f_equal. lia.
  - f_equal. lia.
Qed.

Lemma probe_inv ib ht i s r d c ht' :
  probe ib ht i = Ok (s, r, d, c, ht') ->
  exists w,
    u32 ib i = Ok w /\ s = Z.land w m /\
    ht_get ht (hash s) = Ok r /\ ht_set ht (hash s) i = Ok ht' /\
    d = sub32 i r /\
    ((d < 8192 /\ exists w', u32 ib r = Ok w' /\ c = Z.land w' m) \/
     (8192 <= d /\ c = add32 m 1)).
Proof.
  unfold probe. intros H.
  bind_inv H w Hw. bind_inv H r0 Hr. bind_inv H ht0 Hs. bind_inv H c0 Hc.
  injection H as <- <- <- <- <-.
  exists w. repeat split; try assumption.
  destruct (Z.ltb_spec (sub32 i r0) 8192) as [Hd|Hd].
  - left. split; [assumption|]. bind_inv Hc w' Hw'. injection Hc as <-. eauto.
  - right. split; [assumption|]. now injection Hc as <-.
Qed.

(** A probe whose distance is not below 8192 compares against [m+1],
    which no 24-bit window equals. *)
Lemma probe_far ib ht i s r d c ht' :
  probe ib ht i = Ok (s, r, d, c, ht') ->
  8192 <= d -> c = m + 1 /\ s <> c.
Proof.
  intros H Hd. apply probe_inv in H.
  destruct H as (w & _ & -> & _ & _ & _ & [[Hlt _]|[_ ->]]); [lia|].
  pose proof (land_m_range w) as Hw.
  change (add32 m 1) with (m + 1). change (m + 1) with (2 ^ 24). lia.
Qed.

Lemma ht_get_nonneg ht h r :
  Forall (fun x => 0 <= x) ht -> ht_get ht h = Ok r -> 0 <= r.
Proof.
  unfold ht_get. intros Hall H.
  destruct (ht !! Z.to_nat h) as [v|] eqn:Hv; [|discriminate].
  injection H as <-. eapply (Forall_lookup_1 _ _ _ _ Hall Hv).
Qed.

Lemma ht_set_nonneg ht h v ht' :
  Forall (fun x => 0 <= x) ht -> 0 <= v -> ht_set ht h v = Ok ht' ->
  Forall (fun x => 0 <= x) ht'.
Proof.
  unfold ht_set. intros Hall Hv H.
  destruct (h <? Z.of_nat (length ht)); [|discriminate].
  injection H as <-. now apply Forall_insert.
Qed.

Lemma scan_inv fuel ib b : forall ht i ht' i' r d,
  0 <= i < 2 ^ 32 -> Forall (fun x => 0 <= x) ht ->
  scan fuel ib b ht i = Ok (ht', i', r, d) ->
  Forall (fun x => 0 <= x) ht' /\ 0 <= i' < 2 ^ 32 /\ 0 <= r /\
  (i' < sub32 b 9 ->
   exists j, i' = j + 1 /\ 0 <= j /\ d = sub32 j r /\ d < 8192 /\
             same_window ib r j).
Proof.
  induction fuel as [|fuel IH]; intros ht i ht' i' r d Hi Hall H;
    [discriminate|].
  cbn [scan] in H. bind_inv H x Hp.
  destruct x as [[[[s r0] d0] c] ht0].
  pose proof (probe_inv _ _ _ _ _ _ _ _ Hp) as (w & Hw & Hs & Hg & Hset & Hd & Hc).
  pose proof (ht_get_nonneg _ _ _ Hall Hg) as Hr0.
  pose proof (ht_set_nonneg _ _ _ _ Hall (proj1 Hi) Hset) as Hall0.
  pose proof (sub32_range b 9) as Hb9.
  destruct (Z.geb_spec i (sub32 b 9)) as [Hge|Hlt].
  - injection H as <- <- <- <-. repeat split; try assumption; try lia.
  - rewrite (add32_small i 1) in H by lia.
    destruct (Z.eqb_spec s c) as [Heq|Hne].
    + injection H as <- <- <- <-. repeat split; try assumption; try lia.
      intros _. exists i. repeat split; try lia; try assumption.
      * destruct Hc as [[Hlt8 _]|[Hge8 _]]; [assumption|].
        destruct (probe_far _ _ _ _ _ _ _ _ Hp Hge8) as [_ Hsc]. contradiction.
      * destruct Hc as [[Hlt8 (w' & Hw' & Hcw)]|[Hge8 _]].
        -- exists w, w'. repeat split; try assumption. congruence.
        -- destruct (probe_far _ _ _ _ _ _ _ _ Hp Hge8) as [_ Hsc].
           contradiction.
    + apply (IH ht0 (i + 1)); [lia|assumption|assumption].
Qed.

Lemma extend_range fuel ib b r i : forall l l',
  3 <= l < 2 ^ 32 -> extend fuel ib b r i l = Ok l' -> l <= l' < 2 ^ 32.
Proof.
  induction fuel as [|fuel IH]; intros l l' Hl H; [discriminate|].
  cbn [extend] in H. pose proof (sub32_range b i) as Hbi.
  destruct (Z.ltb_spec l (sub32 b i)) as [Hlt|Hge].
  - bind_inv H x Hx. bind_inv H y Hy.
    destruct (x =? y).
    + rewrite (add32_small l 1) in H by lia.
      apply IH in H; lia.
    + injection H as <-. lia.
  - injection H as <-. lia.
Qed.

Lemma outer_inv fuel ib b : forall n ht a i n' a' evs,
  0 <= i < 2 ^ 32 -> 0 <= n < 2 ^ 32 -> Forall (fun x => 0 <= x) ht ->
  outer fuel ib b n ht a i = Ok (n', a', evs) ->
  n' = wrap32 (n + sumZ (map cost evs)) /\ Forall (accepted ib) evs.
Proof.
  induction fuel as [|fuel IH]; intros n ht a i n' a' evs Hi Hn Hall H.
  - cbn [outer] in H. destruct (i <? sub32 b 9); [discriminate|].
    injection H as <- <- <-. cbn. rewrite Z.add_0_r.
    split; [now rewrite wrap32_small|constructor].
  - cbn [outer] in H. destruct (i <? sub32 b 9).
    2:{ injection H as <- <- <-. cbn. rewrite Z.add_0_r.
        split; [now rewrite wrap32_small|constructor]. }
    bind_inv H x Hscan. destruct x as [[[ht1 i1] r] d].
    destruct (scan_inv _ _ _ _ _ _ _ _ _ Hi Hall Hscan)
      as (Hall1 & Hi1 & Hr & Hm).
    destruct (Z.geb_spec i1 (sub32 b 9)) as [Hge|Hlt].
    { injection H as <- <- <-. cbn. rewrite Z.add_0_r.
      split; [now rewrite wrap32_small|constructor]. }
    destruct (Hm Hlt) as (j & -> & Hj & Hd & Hd8 & Hwin). clear Hm.
    cbv zeta in H.
    replace (sub32 (j + 1) 1) with j in H
      by (rewrite sub32_small; lia).
    bind_inv H l Hext.
    pose proof (extend_range _ _ _ _ _ 3 l ltac:(lia) Hext) as Hl.
    bind_inv H s Hs. bind_inv H ht2 Hset2. bind_inv H ht3 Hset3.
    bind_inv H y Hrec. destruct y as [[n2 a2] evs2].
    injection H as <- <- <-.
    rewrite match_charge in Hrec by lia.
    pose proof (add32_range j (sub32 l 2)) as Hi2.
    pose proof (add32_range (add32 j (sub32 l 2)) 1) as Hi3.
    pose proof (add32_range (add32 (add32 j (sub32 l 2)) 1) 1) as Hi4.
    assert (Hall2 : Forall (fun x => 0 <= x) ht2)
      by (eapply ht_set_nonneg; [exact Hall1| |exact Hset2]; lia).
    assert (Hall3 : Forall (fun x => 0 <= x) ht3)
      by (eapply ht_set_nonneg; [exact Hall2| |exact Hset3]; lia).
    apply IH in Hrec; [ | assumption | apply wrap32_range | assumption ].
    destruct Hrec as [Hn2 Hacc2].
    assert (Hmatch : accepted ib (Match r j d l)).
    { cbn. repeat split; try lia; try assumption.
      destruct (Z.le_gt_cases r j) as [Hle|Hgt]; [|lia].
      rewrite Hd, sub32_small in Hd8; lia. }
    split.
    + rewrite Hn2, map_app, sumZ_app. cbn [map sumZ cost].
      destruct (j >? a).
      * rewrite literals_charge.
        rewrite (wrap32_add_l (n + literals_cost (sub32 j a))), wrap32_add_l.
        cbn [map sumZ cost]. f_equal. lia.
      * rewrite wrap32_add_l. cbn [map sumZ]. f_equal. lia.
    + apply Forall_app. split; [|constructor; assumption].
      destruct (j >? a); constructor; [|constructor].
      cbn. apply sub32_range.
Qed.

Lemma FlzCompressLen_trace_inv ib n evs :
  FlzCompressLen_trace ib = Ok (n, evs) ->
  n = wrap32 (sumZ (map cost evs)) /\ Forall (accepted ib) evs.
Proof.
  unfold FlzCompressLen_trace. cbv zeta. intros H.
  bind_inv H x Hout. destruct x as [[n1 a1] evs1].
  injection H as <- <-.
  apply outer_inv in Hout;
    [ | lia | lia | apply Forall_replicate; lia ].
  destruct Hout as [-> Hacc]. split.
  - rewrite literals_charge, wrap32_add_l, map_app, sumZ_app.
    cbn [map sumZ cost]. f_equal. lia.
  - apply Forall_app. split; [assumption|].
    constructor; [|constructor]. cbn. apply sub32_range.
Qed.

(** ** Reading the input *)

Lemma wrap32_cases (x : Z) :
  0 <= x < 2 ^ 33 ->
  (x < 2 ^ 32 /\ wrap32 x = x) \/ (2 ^ 32 <= x /\ wrap32 x = x - 2 ^ 32).
Proof.
  intros Hx. destruct (Z.lt_ge_cases x (2 ^ 32)) as [Hlt|Hge].
  - left. split; [assumption|]. apply wrap32_small. lia.
  - right. split; [assumption|]. unfold wrap32.
    symmetry. apply (Z.mod_unique x (2 ^ 32) 1); lia.
Qed.

Lemma index_inv ib i x :
  0 <= i -> index ib i = Ok x -> i < Z.of_nat (length ib).
Proof.
  unfold index. intros Hi H.
  destruct (ib !! Z.to_nat i) as [y|] eqn:Hy; [|discriminate].
  apply lookup_lt_Some in Hy. lia.
Qed.

Lemma index_ok ib i :
  0 <= i < Z.of_nat (length ib) -> exists x, index ib i = Ok x.
Proof.
  intros Hi. unfold index.
  destruct (lookup_lt_is_Some_2 ib (Z.to_nat i) ltac:(lia)) as [y Hy].
  rewrite Hy. eauto.
Qed.

Lemma index_fuel ib i : index ib i <> OutOfFuel.
Proof. unfold index. now destruct (ib !! Z.to_nat i). Qed.

(** A word that was read lies inside the input. *)
Lemma u32_inv ib i w :
  Z.of_nat (length ib) < 2 ^ 32 -> 0 <= i < 2 ^ 32 ->
  u32 ib i = Ok w -> i + 3 < Z.of_nat (length ib).
Proof.
  intros HL Hi H. unfold u32 in H.
  bind_inv H b0 H0. bind_inv H b1 H1. bind_inv H b2 H2. bind_inv H b3 H3.
  apply index_inv in H0; [|lia].
  apply index_inv in H1; [|apply add32_range].
  apply index_inv in H2; [|apply add32_range].
  apply index_inv in H3; [|apply add32_range].
  unfold add32 in *.
  destruct (wrap32_cases (i + 1)) as [[? E1]|[? E1]]; [lia| |];
  destruct (wrap32_cases (i + 2)) as [[? E2]|[? E2]]; try lia;
  destruct (wrap32_cases (i + 3)) as [[? E3]|[? E3]]; try lia.
Qed.

Lemma u32_ok ib i :
  0 <= i -> i + 3 < Z.of_nat (length ib) -> Z.of_nat (length ib) < 2 ^ 32 ->
  exists w, u32 ib i = Ok w.
Proof.
  intros Hi Hlt HL. unfold u32.
  rewrite (add32_small i 1), (add32_small i 2), (add32_small i 3) by lia.
  destruct (index_ok ib i) as [b0 ->]; [lia|].
  destruct (index_ok ib (i + 1)) as [b1 ->]; [lia|].
  destruct (index_ok ib (i + 2)) as [b2 ->]; [lia|].
  destruct (index_ok ib (i + 3)) as [b3 ->]; [lia|].
  cbn [bind]. eauto.
Qed.

Lemma bind_fuel {A B : Type} (c : result A) (k : A -> result B) :
  c <> OutOfFuel -> (forall x, k x <> OutOfFuel) -> bind c k <> OutOfFuel.
Proof. intros Hc Hk. destruct c; cbn [bind]; [apply Hk|discriminate|congruence]. Qed.

Lemma u32_fuel ib i : u32 ib i <> OutOfFuel.
Proof.
  unfold u32. repeat (apply bind_fuel; [apply index_fuel|intros ?]).
  discriminate.
Qed.

Lemma ht_get_fuel ht h : ht_get ht h <> OutOfFuel.
Proof. unfold ht_get. now destruct (ht !! Z.to_nat h). Qed.

Lemma ht_set_fuel ht h v : ht_set ht h v <> OutOfFuel.
Proof. unfold ht_set. now destruct (h <? Z.of_nat (length ht)). Qed.

Lemma probe_fuel ib ht i : probe ib ht i <> OutOfFuel.
Proof.
  unfold probe.
  apply bind_fuel; [apply u32_fuel|intros w].
  apply bind_fuel; [apply ht_get_fuel|intros r].
  apply bind_fuel; [apply ht_set_fuel|intros ht'].
  apply bind_fuel; [|intros c; discriminate].
  destruct (sub32 i r <? 8192); [|discriminate].
  apply bind_fuel; [apply u32_fuel|intros w'; discriminate].
Qed.

(** ** The loop that extends a match *)

(** On an input below 4 GiB the loop stops within the fuel it is given: it
    returns a length that keeps the match inside the input, or it panics on
    a read past the end. *)
Lemma extend_bounded ib b r i fuel : forall l,
  Z.of_nat (length ib) < 2 ^ 32 ->
  0 <= i -> 3 <= l -> i + l <= Z.of_nat (length ib) ->
  (1 <= fuel)%nat -> Z.of_nat fuel + i + l > Z.of_nat (length ib) ->
  extend fuel ib b r i l = Panic \/
  exists l', extend fuel ib b r i l = Ok l' /\ l <= l' /\
             i + l' <= Z.of_nat (length ib).
Proof.
  induction fuel as [|fuel IH]; intros l HL Hi Hl Hil Hf Hm; [lia|].
  cbn [extend].
  destruct (l <? sub32 b i); [|right; exists l; repeat split; lia].
  pose proof (index_fuel ib (add32 r l)) as Hf1.
  destruct (index ib (add32 r l)) as [x| |]; cbn [bind];
    [|now left|contradiction].
  pose proof (index_fuel ib (add32 i l)) as Hf2.
  destruct (index ib (add32 i l)) as [y| |] eqn:Hy; cbn [bind];
    [|now left|contradiction].
  rewrite (add32_small i l) in Hy by lia.
  apply index_inv in Hy; [|lia].
  destruct (x =? y); [|right; exists l; repeat split; lia].
  rewrite (add32_small l 1) by lia.
  destruct (IH (l + 1)) as [HP|(l' & HO & ? & ?)]; try lia.
  - now left.
  - right. exists l'. repeat split; [assumption|lia|lia].
Qed.

(** ** Inputs shorter than 13 bytes *)

Section short_input.

Variable ib : list byte.
Hypothesis short : Z.of_nat (length ib) < 13.

Local Abbreviation L := (Z.of_nat (length ib)).
Local Abbreviation b := (sub32 (wrap32 L) 4).

(** The bound [b-9] of both loops wraps around to the top of the
    [uint32] range: no offset inside the input reaches it. *)
Lemma short_bound : sub32 b 9 = L + 2 ^ 32 - 13.
Proof.
  rewrite (wrap32_small L) by lia. unfold sub32. rewrite wrap32_sub_l.
  unfold wrap32. symmetry.
  apply (Z.mod_unique (L - 4 - 9) (2 ^ 32) (-1)); lia.
Qed.

Lemma scan_short fuel : forall ht i,
  0 <= i -> (1 <= fuel)%nat -> Z.of_nat fuel + i > L ->
  scan fuel ib b ht i = Panic \/
  exists ht' i' r d,
    scan fuel ib b ht i = Ok (ht', i', r, d) /\ i < i' /\ i' + 2 < L.
Proof.
  induction fuel as [|fuel IH]; intros ht i Hi Hf Hm; [lia|].
  cbn [scan]. pose proof (probe_fuel ib ht i) as Hpf.
  destruct (probe ib ht i) as [[[[[s r] d] c] ht1]| |] eqn:Hp;
    cbn [bind]; [|now left|contradiction].
  pose proof (probe_inv _ _ _ _ _ _ _ _ Hp) as (w & Hw & _).
  destruct (Z.lt_ge_cases i (2 ^ 32)) as [Hi32|Hi32].
  2:{ apply u32_inv in Hw; [lia|lia|].
      unfold u32 in Hw. bind_inv Hw b0 H0.
      apply index_inv in H0; lia. }
  apply u32_inv in Hw; [|lia|lia].
  rewrite short_bound.
  destruct (Z.geb_spec i (L + 2 ^ 32 - 13)) as [Hge|Hlt];
    [lia|].
  rewrite (add32_small i 1) by lia.
  destruct (s =? c).
  - right. exists ht1, (i + 1), r, d. repeat split; lia.
  - destruct (IH ht1 (i + 1)) as [HP|(ht' & i' & r' & d' & HO & ? & ?)];
      [lia|lia|lia| |].
    + now left.
    + right. exists ht', i', r', d'. repeat split; [assumption|lia|lia].
Qed.

Lemma outer_short fuel : forall n ht a i,
  0 <= i <= L + 2 -> (1 <= fuel)%nat -> Z.of_nat fuel + i > L ->
  outer fuel ib b n ht a i = Panic.
Proof.
  induction fuel as [|fuel IH]; intros n ht a i Hi Hf Hm; [lia|].
  cbn [outer]. rewrite short_bound.
  destruct (Z.ltb_spec i (L + 2 ^ 32 - 13)) as [_|Hge]; [|lia].
  destruct (scan_short (S (length ib)) ht i)
    as [->|(ht1 & i1 & r & d & -> & Hi1 & Hi1L)]; try lia; [reflexivity|].
  cbn [bind].
  destruct (Z.geb_spec i1 (L + 2 ^ 32 - 13)) as [Hge|_]; [lia|].
  cbv zeta. rewrite (sub32_small i1 1) by lia.
  destruct (extend_bounded ib b r (i1 - 1) (S (length ib)) 3)
    as [->|(l & -> & Hl & HlL)]; try lia; [reflexivity|].
  cbn [bind].
  rewrite (sub32_small l 2), (add32_small (i1 - 1) (l - 2)) by lia.
  pose proof (u32_fuel ib (i1 - 1 + (l - 2))) as Hfu.
  destruct (u32 ib (i1 - 1 + (l - 2))) as [s| |] eqn:Hs; cbn [bind];
    [|reflexivity|contradiction].
  apply u32_inv in Hs; [|lia|lia].
  match goal with
  | |- context [ht_set ?t ?h ?v] =>
      pose proof (ht_set_fuel t h v) as Hf2;
      destruct (ht_set t h v) as [ht2| |]; cbn [bind];
        [|reflexivity|contradiction]
  end.
  match goal with
  | |- context [ht_set ?t ?h ?v] =>
      pose proof (ht_set_fuel t h v) as Hf3;
      destruct (ht_set t h v) as [ht3| |]; cbn [bind];
        [|reflexivity|contradiction]
  end.
  rewrite (add32_small (i1 - 1 + (l - 2)) 1) by lia.
  rewrite (add32_small (i1 - 1 + (l - 2) + 1) 1) by lia.
  rewrite IH; [reflexivity|lia|lia|lia].
Qed.

(** Every input shorter than 13 bytes makes [FlzCompressLen] panic: the
    outer loop is entered and sooner or later reads past the end. *)
Lemma FlzCompressLen_trace_short : FlzCompressLen_trace ib = Panic.
Proof.
  unfold FlzCompressLen_trace. cbv zeta.
  rewrite outer_short; [reflexivity|lia|lia|lia].
Qed.

End short_input.

(** ** Inputs of 13 bytes and more *)

Lemma table_ok_mono ht i i' : table_ok ht i -> i <= i' -> table_ok ht i'.
Proof.
  intros [Hlen Hall] Hle. split; [assumption|].
  eapply Forall_impl; [exact Hall|]. cbn. intros r Hr. lia.
Qed.

Lemma ht_get_ok ht i h :
  table_ok ht i -> 0 <= h < 8192 ->
  exists r, ht_get ht h = Ok r /\ 0 <= r <= i.
Proof.
  intros [Hlen Hall] Hh. unfold ht_get.
  destruct (lookup_lt_is_Some_2 ht (Z.to_nat h) ltac:(lia)) as [r Hr].
  rewrite Hr. exists r. split; [reflexivity|].
  apply (Forall_lookup_1 _ _ _ _ Hall Hr).
Qed.

Lemma ht_set_ok ht i h v :
  table_ok ht i -> 0 <= h < 8192 -> 0 <= v -> i <= v ->
  exists ht', ht_set ht h v = Ok ht' /\ table_ok ht' v.
Proof.
  intros Hok Hh Hv Hiv. unfold ht_set.
  destruct (table_ok_mono _ _ _ Hok Hiv) as [Hlen Hall].
  destruct (Z.ltb_spec h (Z.of_nat (length ht))) as [_|Hge]; [|lia].
  eexists. split; [reflexivity|]. split.
  - now rewrite length_insert.
  - apply Forall_insert; [assumption|lia].
Qed.

Section long_input.

Variable ib : list byte.
Hypothesis long : 13 <= Z.of_nat (length ib).
Hypothesis bounded : Z.of_nat (length ib) < 2 ^ 32.

Local Abbreviation L := (Z.of_nat (length ib)).
Local Abbreviation b := (sub32 (wrap32 L) 4).

Lemma long_b : b = L - 4.
Proof. rewrite (wrap32_small L) by lia. apply sub32_small. lia. Qed.

Lemma long_bound : sub32 b 9 = L - 13.
Proof. rewrite long_b. rewrite sub32_small; lia. Qed.

Lemma probe_long ht i :
  table_ok ht i -> 0 <= i -> i + 3 < L ->
  exists s r d c ht',
    probe ib ht i = Ok (s, r, d, c, ht') /\ table_ok ht' i /\ 0 <= r <= i.
Proof.
  intros Hok Hi HiL. unfold probe.
  destruct (u32_ok ib i Hi HiL bounded) as [w ->]. cbn [bind].
  destruct (ht_get_ok ht i (hash (Z.land w m)) Hok (hash_range _))
    as (r & -> & Hr).
  cbn [bind].
  destruct (ht_set_ok ht i (hash (Z.land w m)) i Hok (hash_range _))
    as (ht' & -> & Hok'); [lia|lia|].
  cbn [bind].
  destruct (sub32 i r <? 8192).
  - destruct (u32_ok ib r) as [w' ->]; [lia|lia|exact bounded|].
    cbn [bind]. do 5 eexists. split; [reflexivity|]. split; assumption.
  - cbn [bind]. do 5 eexists. split; [reflexivity|]. split; assumption.
Qed.

Lemma scan_long fuel : forall ht i,
  table_ok ht i -> 0 <= i <= L - 13 -> Z.of_nat fuel + i > L - 13 ->
  exists ht' i' r d,
    scan fuel ib b ht i = Ok (ht', i', r, d) /\ i <= i' <= L - 13 /\
    (i' < L - 13 -> i < i' /\ table_ok ht' (i' - 1) /\ 0 <= r <= i' - 1).
Proof.
  induction fuel as [|fuel IH]; intros ht i Hok Hi Hm; [lia|].
  cbn [scan].
  destruct (probe_long ht i Hok) as (s & r & d & c & ht1 & -> & Hok1 & Hr);
    [lia|lia|].
  cbn [bind]. rewrite long_bound.
  destruct (Z.geb_spec i (L - 13)) as [Hge|Hlt].
  - exists ht1, i, r, d. split; [reflexivity|]. split; lia.
  - rewrite (add32_small i 1) by lia.
    destruct (s =? c).
    + exists ht1, (i + 1), r, d. split; [reflexivity|]. split; [lia|].
      intros _. replace (i + 1 - 1) with i by lia.
      split; [lia|]. split; assumption.
    + destruct (IH ht1 (i + 1)) as (ht' & i' & r' & d' & HO & Hi' & Hc);
        [eapply table_ok_mono; [exact Hok1|lia]|lia|lia|].
      exists ht', i', r', d'. split; [assumption|]. split; [lia|].
      intros Hlt'. destruct (Hc Hlt') as (? & ? & ?).
      split; [lia|]. split; assumption.
Qed.

Lemma extend_long r i fuel : forall l,
  0 <= r <= i -> 3 <= l <= L - 4 - i ->
  Z.of_nat fuel + l > L - 4 - i ->
  exists l', extend fuel ib b r i l = Ok l' /\ l <= l' <= L - 4 - i.
Proof.
  induction fuel as [|fuel IH]; intros l Hr Hl Hm; [lia|].
  cbn [extend]. rewrite long_b. rewrite (sub32_small (L - 4) i) by lia.
  destruct (Z.ltb_spec l (L - 4 - i)) as [Hlt|Hge];
    [|exists l; split; [reflexivity|lia]].
  rewrite (add32_small r l), (add32_small i l) by lia.
  destruct (index_ok ib (r + l)) as [x ->]; [lia|].
  destruct (index_ok ib (i + l)) as [y ->]; [lia|].
  cbn [bind].
  destruct (x =? y); [|exists l; split; [reflexivity|lia]].
  rewrite (add32_small l 1) by lia.
  destruct (IH (l + 1)) as (l' & HO & Hl'); [lia|lia|lia|].
  rewrite long_b in HO.
  exists l'. split; [assumption|lia].
Qed.

Lemma outer_long fuel : forall n ht a i,
  table_ok ht i -> 0 <= a <= i -> i <= L - 4 ->
  Z.of_nat fuel + i > L - 4 ->
  exists n' a' evs,
    outer fuel ib b n ht a i = Ok (n', a', evs) /\
    a <= a' <= L - 4 /\ sumZ (map span evs) = a' - a.
Proof.
  induction fuel as [|fuel IH]; intros n ht a i Hok Ha Hi Hm; [lia|].
  cbn [outer]. rewrite long_bound.
  destruct (Z.ltb_spec i (L - 13)) as [Hlt|Hge].
  2:{ exists n, a, []. split; [reflexivity|]. cbn. lia. }
  destruct (scan_long (S (length ib)) ht i Hok)
    as (ht1 & i1 & r & d & -> & Hi1 & Hc); [lia|lia|].
  cbn [bind].
  destruct (Z.geb_spec i1 (L - 13)) as [Hge1|Hlt1].
  { exists n, a, []. split; [reflexivity|]. cbn. lia. }
  destruct (Hc Hlt1) as (Hii1 & Hok1 & Hr). clear Hc.
  cbv zeta. rewrite (sub32_small i1 1) by lia.
  destruct (extend_long r (i1 - 1) (S (length ib)) 3)
    as (l & HO & Hl); [lia|lia|lia|].
  rewrite long_b in HO. rewrite long_b, HO. cbn [bind].
  rewrite (sub32_small l 2), (add32_small (i1 - 1) (l - 2)) by lia.
  destruct (u32_ok ib (i1 - 1 + (l - 2))) as [s ->];
    [lia|lia|exact bounded|].
  cbn [bind].
  destruct (ht_set_ok ht1 (i1 - 1) (hash (Z.land s m)) (i1 - 1 + (l - 2))
              Hok1 (hash_range _)) as (ht2 & -> & Hok2); [lia|lia|].
  cbn [bind].
  rewrite (add32_small (i1 - 1 + (l - 2)) 1) by lia.
  destruct (ht_set_ok ht2 (i1 - 1 + (l - 2)) (hash (Z.shiftr s 8))
              (i1 - 1 + (l - 2) + 1) Hok2 (hash_range _))
    as (ht3 & -> & Hok3); [lia|lia|].
  cbn [bind].
  rewrite (add32_small (i1 - 1 + (l - 2) + 1) 1) by lia.
  match goal with
  | |- context [outer fuel ib _ ?n0 ht3 ?a0 ?i0] =>
      destruct (IH n0 ht3 a0 i0) as (n' & a' & evs & Hrec & Ha' & Hsum);
        [eapply table_ok_mono; [exact Hok3|lia]|lia|lia|lia|]
  end.
  rewrite long_b in Hrec. rewrite Hrec. cbn [bind].
  do 3 eexists. split; [reflexivity|]. split; [lia|].
  rewrite map_app, sumZ_app. cbn [map sumZ span]. rewrite Hsum.
  destruct (Z.gtb_spec (i1 - 1) a) as [Hgt|Hle]; cbn [map sumZ span].
  - rewrite sub32_small; lia.
  - lia.
Qed.

(** On an input of at least 13 bytes and below 4 GiB [FlzCompressLen]
    returns: no read leaves the input and the fuel of the model is
    enough.  The charges account for every input byte exactly once. *)
Lemma FlzCompressLen_trace_long :
  exists n evs,
    FlzCompressLen_trace ib = Ok (n, evs) /\ sumZ (map span evs) = L.
Proof.
  unfold FlzCompressLen_trace. cbv zeta.
  destruct (outer_long (S (length ib)) 0 (replicate (Z.to_nat 8192) 0) 0 2)
    as (n' & a' & evs & Hout & Ha' & Hsum).
  - split; [apply length_replicate|]. apply Forall_replicate. lia.
  - lia.
  - lia.
  - lia.
  - rewrite Hout. cbn [bind]. do 2 eexists. split; [reflexivity|].
    rewrite map_app, sumZ_app, Hsum. cbn [map sumZ span].
    rewrite long_b. rewrite (add32_small (L - 4) 4) by lia.
    rewrite sub32_small; lia.
Qed.

End long_input.

(** ** The estimator as a whole *)

Lemma FlzCompressLen_of_trace ib :
  FlzCompressLen ib =
    match FlzCompressLen_trace ib with
    | Ok (n, _) => Ok n
    | Panic => Panic
    | OutOfFuel => OutOfFuel
    end.
Proof.
  unfold FlzCompressLen.
  now destruct (FlzCompressLen_trace ib) as [[n evs]| |].
Qed.

Lemma FlzCompressLen_range ib n :
  FlzCompressLen ib = Ok n -> 0 <= n < 2 ^ 32.
Proof.
  rewrite FlzCompressLen_of_trace.
  destruct (FlzCompressLen_trace ib) as [[n' evs]| |] eqn:H; try discriminate.
  intros [= <-]. apply FlzCompressLen_trace_inv in H as [-> _].
  apply wrap32_range.
Qed.

(** The fuel of the model is enough on every input below 4 GiB. *)
Lemma FlzCompressLen_fuel ib :
  Z.of_nat (length ib) < 2 ^ 32 -> FlzCompressLen ib <> OutOfFuel.
Proof.
  intros HL. rewrite FlzCompressLen_of_trace.
  destruct (Z.lt_ge_cases (Z.of_nat (length ib)) 13) as [Hs|Hl].
  - now rewrite FlzCompressLen_trace_short.
  - destruct (FlzCompressLen_trace_long ib) as (n & evs & -> & _);
      [lia|lia|discriminate].
Qed.

Lemma FlzCompressLen_long ib :
  13 <= Z.of_nat (length ib) < 2 ^ 32 ->
  exists n, FlzCompressLen ib = Ok n /\ 0 <= n < 2 ^ 32.
Proof.
  intros [Hl HL].
  destruct (FlzCompressLen_trace_long ib Hl HL) as (n & evs & H & _).
  assert (Hn : FlzCompressLen ib = Ok n)
    by now rewrite FlzCompressLen_of_trace, H.
  exists n. split; [assumption|]. exact (FlzCompressLen_range ib n Hn).
Qed.

Lemma cost_bound ib e : accepted ib e -> 0 <= cost e <= 2 * span e.
Proof.
  destruct e as [run|r i d l]; cbn [accepted cost span].
  - intros Hr. unfold literals_cost.
    pose proof (Z.div_mod run 32 ltac:(lia)) as Hdm.
    pose proof (Z.mod_pos_bound run 32 ltac:(lia)) as Hm.
    assert (0 <= run / 32) by (apply Z.div_pos; lia).
    destruct (Z.eqb_spec (run mod 32) 0); lia.
  - intros (_ & _ & _ & _ & _ & _ & Hl). unfold match_cost.
    pose proof (Z.div_mod (l - 3) 262 ltac:(lia)) as Hdm.
    pose proof (Z.mod_pos_bound (l - 3) 262 ltac:(lia)) as Hm.
    assert (0 <= (l - 3) / 262) by (apply Z.div_pos; lia).
    destruct (Z.ltb_spec l 9); lia.
Qed.

Lemma total_cost_bound ib evs :
  Forall (accepted ib) evs ->
  0 <= sumZ (map cost evs) <= 2 * sumZ (map span evs).
Proof.
  induction 1 as [|e evs He _ IH]; cbn [map sumZ]; [lia|].
  pose proof (cost_bound ib e He). lia.
Qed.

Lemma l1Gas_range reg ecl tx gas :
  l1Gas reg ecl tx = Ok gas -> 0 <= gas < 2 ^ 64.
Proof.
  unfold l1Gas. destruct ecl.
  - intros H. bind_inv H n Hn. injection H as <-. apply wrap64_range.
  - destruct (count_bytes (data tx)) as [z o].
    destruct reg; intros [= <-]; apply wrap64_range.
Qed.

(** The gas under Eclipse. *)
Lemma l1Gas_eclipse reg tx :
  l1Gas reg true tx = let* n := FlzCompressLen (data tx) in Ok (n * 16).
Proof.
  unfold l1Gas.
  destruct (FlzCompressLen (data tx)) as [n| |] eqn:Hn; cbn [bind];
    try reflexivity.
  apply FlzCompressLen_range in Hn.
  unfold mul64, params.TxDataNonZeroGasEIP2028.
  now rewrite wrap64_small by lia.
Qed.

(** * The claims *)

(** With the gate on, the outcome of a call follows the outcome of the
    first half of the closure: when [gas] is computed the call returns
    [l1GasUsed = gas + overhead] and
    [fee = floor (l1GasUsed * l1BaseFee * scalar / 1000000)], one division
    of the full product; when that half panics so does the call. *)
Lemma fee_is_floor_of_full_product (config : params.ChainConfig)
    (l1BaseFee overhead scalar blockTime : Z) (tx : L1CostData) :
  params.Optimism config <> None ->
  let isRegolith := params.IsRegolith config blockTime in
  let isEclipse := params.IsEclipse config blockTime in
  match l1Gas isRegolith isEclipse tx with
  | Ok gas =>
      exists fee l1GasUsed,
        L1Cost config l1BaseFee overhead scalar blockTime tx
          = Ok (Some (fee, l1GasUsed)) /\
        l1GasUsed = gas + overhead /\
        fee = l1GasUsed * l1BaseFee * scalar / 1000000 /\
        1000000 * fee <= l1GasUsed * l1BaseFee * scalar
                      < 1000000 * fee + 1000000
  | Panic => L1Cost config l1BaseFee overhead scalar blockTime tx = Panic
  | OutOfFuel =>
      L1Cost config l1BaseFee overhead scalar blockTime tx = OutOfFuel
  end /\
  (isEclipse = false \/ 13 <= Z.of_nat (length (data tx)) < 2 ^ 32 ->
   exists gas, l1Gas isRegolith isEclipse tx = Ok gas).
Proof.
  intros Hon isRegolith isEclipse. split.
  - rewrite (L1Cost_on config l1BaseFee overhead scalar blockTime tx Hon).
    fold isRegolith isEclipse.
    destruct (l1Gas isRegolith isEclipse tx) as [gas| |]; cbn [bind];
      try reflexivity.
    exists ((gas + overhead) * l1BaseFee * scalar / 1000000), (gas + overhead).
    repeat split.
    + apply Z.mul_div_le. lia.
    + pose proof (Z.mul_succ_div_gt ((gas + overhead) * l1BaseFee * scalar)
                    1000000 ltac:(lia)).
      lia.
  - intros [Hoff|Hlen].
    + rewrite Hoff.
      destruct (l1Gas_counting_ok isRegolith tx) as (gas & -> & _). eauto.
    + destruct isEclipse.
      * rewrite l1Gas_eclipse.
        destruct (FlzCompressLen_long (data tx) Hlen) as (n & -> & _).
        cbn [bind]. eauto.
      * destruct (l1Gas_counting_ok isRegolith tx) as (gas & -> & _). eauto.
Qed.

(** C1.  With the gate on, a call on a payload below 4 GiB has one of two
    outcomes.  With Eclipse active and a payload shorter than 13 bytes it
    panics, because [FlzCompressLen] does: there is no fee and no gas used.
    In every other case it returns [l1GasUsed = gas + overhead] and
    [fee = floor (l1GasUsed * l1BaseFee * scalar / 1000000)], the one
    division being that of the full product. *)
Theorem gate_on_call_outcome (config : params.ChainConfig)
    (l1BaseFee overhead scalar blockTime : Z) (tx : L1CostData) :
  params.Optimism config <> None ->
  Z.of_nat (length (data tx)) < 2 ^ 32 ->
  if params.IsEclipse config blockTime
     && (Z.of_nat (length (data tx)) <? 13)
  then L1Cost config l1BaseFee overhead scalar blockTime tx = Panic
  else
    exists gas fee l1GasUsed,
      l1Gas (params.IsRegolith config blockTime)
            (params.IsEclipse config blockTime) tx = Ok gas /\
      L1Cost config l1BaseFee overhead scalar blockTime tx
        = Ok (Some (fee, l1GasUsed)) /\
      l1GasUsed = gas + overhead /\
      fee = l1GasUsed * l1BaseFee * scalar / 1000000 /\
      1000000 * fee <= l1GasUsed * l1BaseFee * scalar
                    < 1000000 * fee + 1000000.
Proof.
  intros Hon HL.
  destruct (fee_is_floor_of_full_product config l1BaseFee overhead scalar
              blockTime tx Hon) as [Hcall Hgas].
  cbv zeta in Hcall, Hgas.
  destruct (params.IsEclipse config blockTime) eqn:He; cbn [andb].
  - destruct (Z.ltb_spec (Z.of_nat (length (data tx))) 13) as [Hs|Hl].
    + rewrite l1Gas_eclipse, FlzCompressLen_of_trace,
        FlzCompressLen_trace_short in Hcall by assumption.
      exact Hcall.
    + destruct Hgas as [gas Hg]; [right; lia|].
      rewrite Hg in Hcall. destruct Hcall as (fee & used & H1 & H2 & H3 & H4).
      exists gas, fee, used. repeat split; try assumption; apply H4.
  - destruct Hgas as [gas Hg]; [left; reflexivity|].
    rewrite Hg in Hcall. destruct Hcall as (fee & used & H1 & H2 & H3 & H4).
    exists gas, fee, used. repeat split; try assumption; apply H4.
Qed.

Lemma gate_on_call_outcome_witness :
  params.Optimism (eclipseConfig true) <> None /\
  Z.of_nat (length (data (NewL1CostData []))) < 2 ^ 32 /\
  L1Cost (eclipseConfig true) 1 1 1000000 0 (NewL1CostData []) = Panic.
Proof.
  split; [discriminate|]. split; [reflexivity|].
  exact (gate_on_call_outcome (eclipseConfig true) 1 1 1000000 0
           (NewL1CostData []) ltac:(discriminate) eq_refl).
Defined.

(** The division is not distributed over the factors: dividing the scalar
    first would give another fee. *)
Example fee_rounding_example :
  L1Cost testConfig 7 3 999999 1 (NewL1CostData emptyTx)
    = Ok (Some (3380, 483)) /\
  483 * 7 * (999999 / 1000000) = 0.
Proof. split; reflexivity. Qed.

(** C2.  With Eclipse active the gas is [FlzCompressLen] of the payload
    times 16, and neither the gas nor the result of the call depends on
    the Regolith flag: two configurations that agree on the gate and have
    Eclipse active give the same outcome, whether a result or the panic of
    [FlzCompressLen].  On a payload of 13 bytes and more (and below 4 GiB)
    the gas is computed. *)
Theorem eclipse_gas_is_compressed_length (config config' : params.ChainConfig)
    (l1BaseFee overhead scalar blockTime blockTime' : Z) (tx : L1CostData) :
  params.IsEclipse config blockTime = true ->
  params.IsEclipse config' blockTime' = true ->
  params.Optimism config = params.Optimism config' ->
  (forall isRegolith,
     l1Gas isRegolith true tx =
       let* len := FlzCompressLen (data tx) in Ok (len * 16)) /\
  L1Cost config l1BaseFee overhead scalar blockTime tx =
    L1Cost config' l1BaseFee overhead scalar blockTime' tx /\
  (13 <= Z.of_nat (length (data tx)) < 2 ^ 32 ->
   exists len, FlzCompressLen (data tx) = Ok len /\
               forall isRegolith, l1Gas isRegolith true tx = Ok (len * 16)).
Proof.
  intros He He' Hgate. split; [intros reg; apply l1Gas_eclipse|]. split.
  - destruct (params.Optimism config) as [o|] eqn:Ho.
    + rewrite !L1Cost_on by congruence.
      rewrite He, He', !l1Gas_eclipse. reflexivity.
    + rewrite !L1Cost_off by congruence. reflexivity.
  - intros Hlen. destruct (FlzCompressLen_long (data tx) Hlen) as (n & Hn & _).
    exists n. split; [assumption|]. intros reg.
    rewrite l1Gas_eclipse, Hn. reflexivity.
Qed.

(** C3.  Before Eclipse the gas is [z * 4 + o * 16] under Regolith and
    [z * 4 + (o + 68) * 16] before it, for [z] zero bytes and [o] non-zero
    bytes.  The [uint64] arithmetic of the code gives these values modulo
    2^64, which is the values themselves for every payload below 2^60 - 68
    bytes. *)
Theorem counting_gas (isRegolith : bool) (tx : L1CostData) :
  Z.of_nat (length (data tx)) + 68 < 2 ^ 60 ->
  let z := zero_count (data tx) in
  let o := nonzero_count (data tx) in
  z + o = Z.of_nat (length (data tx)) /\
  l1Gas isRegolith false tx =
    Ok (if isRegolith then z * 4 + o * 16 else z * 4 + (o + 68) * 16).
Proof.
  intros Hlen z o. split; [apply count_total|now apply l1Gas_counting].
Qed.

Lemma eclipse_gas_is_compressed_length_witness :
  params.IsEclipse (eclipseConfig true) 5 = true /\
  params.IsEclipse (eclipseConfig false) 9 = true /\
  params.Optimism (eclipseConfig true) = params.Optimism (eclipseConfig false) /\
  (forall isRegolith,
     l1Gas isRegolith true (NewL1CostData sevens) =
       let* len := FlzCompressLen (data (NewL1CostData sevens)) in
       Ok (len * 16)) /\
  L1Cost (eclipseConfig true) 1 1 1000000 5 (NewL1CostData sevens) =
    L1Cost (eclipseConfig false) 1 1 1000000 9 (NewL1CostData sevens) /\
  (13 <= Z.of_nat (length (data (NewL1CostData sevens))) < 2 ^ 32 ->
   exists len, FlzCompressLen (data (NewL1CostData sevens)) = Ok len /\
               forall isRegolith,
                 l1Gas isRegolith true (NewL1CostData sevens) = Ok (len * 16)).
Proof.
  split; [reflexivity|]. split; [reflexivity|]. split; [reflexivity|].
  apply (eclipse_gas_is_compressed_length (eclipseConfig true)
           (eclipseConfig false) 1 1 1000000 5 9 (NewL1CostData sevens));
    reflexivity.
Defined.

Example eclipse_example :
  FlzCompressLen sevens = Ok 11 /\
  L1Cost (eclipseConfig true) 1 1 1000000 5 (NewL1CostData sevens)
    = Ok (Some (177, 177)) /\
  L1Cost (eclipseConfig false) 1 1 1000000 9 (NewL1CostData sevens)
    = Ok (Some (177, 177)).
Proof. repeat split; reflexivity. Qed.

Lemma counting_gas_witness :
  Z.of_nat (length (data (NewL1CostData (x00 :: x00 :: emptyTx)))) + 68
    < 2 ^ 60 /\
  (let z := zero_count (data (NewL1CostData (x00 :: x00 :: emptyTx))) in
   let o := nonzero_count (data (NewL1CostData (x00 :: x00 :: emptyTx))) in
   z + o = Z.of_nat (length (data (NewL1CostData (x00 :: x00 :: emptyTx)))) /\
   l1Gas false false (NewL1CostData (x00 :: x00 :: emptyTx)) =
     Ok (if false then z * 4 + o * 16 else z * 4 + (o + 68) * 16)).
Proof.
  split; [vm_compute; reflexivity|].
  apply (counting_gas false (NewL1CostData (x00 :: x00 :: emptyTx))).
  vm_compute. reflexivity.
Defined.

Example counting_example :
  zero_count (x00 :: x00 :: emptyTx) = 2 /\
  nonzero_count (x00 :: x00 :: emptyTx) = 30 /\
  l1Gas true false (NewL1CostData (x00 :: x00 :: emptyTx)) = Ok 488 /\
  l1Gas false false (NewL1CostData (x00 :: x00 :: emptyTx)) = Ok 1576.
Proof. repeat split; reflexivity. Qed.

(** For any payload at all the two counting regimes give these values
    modulo 2^64. *)
Lemma counting_gas_mod (isRegolith : bool) (tx : L1CostData) :
  l1Gas isRegolith false tx =
    Ok (wrap64 (if isRegolith
                then zero_count (data tx) * 4 + nonzero_count (data tx) * 16
                else zero_count (data tx) * 4
                     + (nonzero_count (data tx) + 68) * 16)).
Proof.
  unfold l1Gas. rewrite count_bytes_spec.
  unfold params.TxDataZeroGas, params.TxDataNonZeroGasEIP2028.
  unfold add64, mul64, wrap64.
  destruct isRegolith; f_equal.
  - rewrite !Zmult_mod_idemp_l, <- Zplus_mod. reflexivity.
  - rewrite (Zplus_mod_idemp_l (nonzero_count (data tx)) 68).
    rewrite !Zmult_mod_idemp_l, <- Zplus_mod. reflexivity.
Qed.

(** C4.  An input shorter than 13 bytes does not get the literal-only
    cost: [b - 9] wraps around, the outer loop is entered and the call
    panics on a read past the end of the input.  The closing call
    [literals(b + 4 - a)] alone, with [a] still 0, is the literal-only cost
    of the whole input. *)
Theorem short_input_panics (ib : list byte) :
  Z.of_nat (length ib) < 13 ->
  FlzCompressLen ib = Panic /\
  (let b := sub32 (wrap32 (Z.of_nat (length ib))) 4 in
   literals 0 (sub32 (add32 b 4) 0) = literals_cost (Z.of_nat (length ib))).
Proof.
  intros Hs. split.
  - rewrite FlzCompressLen_of_trace. now rewrite FlzCompressLen_trace_short.
  - cbv zeta. rewrite literals_charge.
    replace (sub32 (add32 (sub32 (wrap32 (Z.of_nat (length ib))) 4) 4) 0)
      with (Z.of_nat (length ib)).
    + rewrite Z.add_0_l. apply wrap32_small.
      unfold literals_cost.
      assert (Hd : Z.of_nat (length ib) / 32 = 0)
        by (apply Z.div_small; lia).
      rewrite Hd, (Z.mod_small (Z.of_nat (length ib)) 32) by lia.
      destruct (Z.of_nat (length ib) =? 0); lia.
    + unfold sub32, add32. rewrite (wrap32_small (Z.of_nat (length ib))) by lia.
      rewrite wrap32_add_l, Z.sub_0_r, wrap32_idem.
      rewrite wrap32_small; lia.
Qed.

Lemma short_input_panics_witness :
  Z.of_nat (length (@nil byte)) < 13 /\
  FlzCompressLen [] = Panic /\
  (let b := sub32 (wrap32 (Z.of_nat (length (@nil byte)))) 4 in
   literals 0 (sub32 (add32 b 4) 0)
     = literals_cost (Z.of_nat (length (@nil byte)))).
Proof.
  split; [vm_compute; reflexivity|].
  apply (short_input_panics []). vm_compute. reflexivity.
Defined.

(** The same on the calculator: with Eclipse active the empty payload and
    a payload of twelve bytes make the call panic, where the literal-only
    cost would be 0 and 13. *)
Example short_input_examples :
  FlzCompressLen [] = Panic /\
  FlzCompressLen (replicate 12 x00) = Panic /\
  FlzCompressLen (replicate 13 x00) = Ok 14 /\
  literals_cost 0 = 0 /\ literals_cost 12 = 13 /\
  L1Cost (eclipseConfig true) 1 1 1000000 0 (NewL1CostData []) = Panic.
Proof. repeat split; reflexivity. Qed.

(** C6.  A candidate at distance 8192 or more is never accepted.  In the
    probe, a distance [d] not below 8192 leaves the comparison value at
    [m + 1], which the 24-bit window [s] cannot equal.  In a whole run,
    every match that is charged has its previous offset [r] less than 8192
    bytes before its offset [i], with equal 24-bit windows at both. *)
Theorem far_candidate_never_matches (ib : list byte) :
  (forall ht i s r d c ht',
     probe ib ht i = Ok (s, r, d, c, ht') ->
     8192 <= d -> c = m + 1 /\ s <> c) /\
  (forall n evs r i d l,
     FlzCompressLen_trace ib = Ok (n, evs) ->
     In (Match r i d l) evs ->
     d = sub32 i r /\ d < 8192 /\ i - r < 8192 /\ same_window ib r i).
Proof.
  split.
  - intros ht i s r d c ht'. apply probe_far.
  - intros n evs r i d l Hrun Hin.
    apply FlzCompressLen_trace_inv in Hrun as [_ Hacc].
    pose proof (proj1 (List.Forall_forall _ _) Hacc _ Hin) as Hm.
    cbn [accepted] in Hm. tauto.
Qed.

Lemma far_candidate_never_matches_witness :
  (8192 <= 8200 -> 16777216 = m + 1 /\ 0 <> 16777216) /\
  (In (Match 0 2 2 34) [Literal 2; Match 0 2 2 34; Literal 4] ->
   2 = sub32 2 0 /\ 2 < 8192 /\ 2 - 0 < 8192 /\ same_window sevens 0 2).
Proof.
  split.
  - intros Hd.
    apply (proj1 (far_candidate_never_matches (replicate (Z.to_nat 8204) x00))
             (replicate (Z.to_nat 8192) 0) 8200 0 0 8200 16777216
             (<[0%nat := 8200]> (replicate (Z.to_nat 8192) 0)));
      [vm_compute; reflexivity|exact Hd].
  - intros Hin.
    apply (proj2 (far_candidate_never_matches sevens) 11
             [Literal 2; Match 0 2 2 34; Literal 4] 0 2 2 34);
      [vm_compute; reflexivity|exact Hin].
Defined.

(** The boundary on a run.  The second marker starts at offset 16 + gap.
    At distance 8191 it is matched against offset 0; at distance 8192 the
    same windows are rejected and the marker is charged as literals. *)
Example distance_boundary :
  FlzCompressLen_trace (far_input 8175)
    = Ok (122, [Literal 17; Match 16 17 1 8174; Match 0 8191 8191 28;
                Literal 4]) /\
  FlzCompressLen_trace (far_input 8176)
    = Ok (139, [Literal 17; Match 16 17 1 8175; Literal 16;
                Match 17 8208 8191 12; Literal 4]).
Proof. split; vm_compute; reflexivity. Qed.

(** C7.  The result is the sum of the charges of the log, taken in the
    32-bit counter: a literal run [run] is charged [33 * (run / 32)] and,
    when [run mod 32] is not zero, [run mod 32 + 1] more; a match of length
    [l], which is at least 3, is charged [3 * (1 + (l - 3) / 262)], less 1
    when [l < 9].  On an input below 4 GiB the runs and matches account
    for every byte once; below 2 GiB the counter does not wrap. *)
Theorem charges_follow_cost_rules (ib : list byte) (n : Z) (evs : list event) :
  FlzCompressLen_trace ib = Ok (n, evs) ->
  (forall run,
     cost (Literal run) =
       33 * (run / 32) + (if run mod 32 =? 0 then 0 else run mod 32 + 1)) /\
  (forall r i d l,
     cost (Match r i d l) =
       3 * (1 + (l - 3) / 262) - (if l <? 9 then 1 else 0)) /\
  (forall r i d l, In (Match r i d l) evs -> 3 <= l) /\
  n = wrap32 (sumZ (map cost evs)) /\
  (Z.of_nat (length ib) < 2 ^ 32 ->
   sumZ (map span evs) = Z.of_nat (length ib)) /\
  (Z.of_nat (length ib) < 2 ^ 31 -> n = sumZ (map cost evs)).
Proof.
  intros Hrun.
  pose proof (FlzCompressLen_trace_inv ib n evs Hrun) as [Hn Hacc].
  assert (Hspan : Z.of_nat (length ib) < 2 ^ 32 ->
                  sumZ (map span evs) = Z.of_nat (length ib)).
  { intros HL.
    destruct (Z.lt_ge_cases (Z.of_nat (length ib)) 13) as [Hs|Hl].
    - rewrite FlzCompressLen_trace_short in Hrun by assumption. discriminate.
    - destruct (FlzCompressLen_trace_long ib) as (n' & evs' & H' & Hsum);
        [lia|lia|].
      rewrite Hrun in H'. injection H' as <- <-. exact Hsum. }
  split; [reflexivity|]. split; [reflexivity|]. split; [|split; [|split]].
  - intros r i d l Hin.
    pose proof (proj1 (List.Forall_forall _ _) Hacc _ Hin) as Hm.
    cbn [accepted] in Hm. lia.
  - exact Hn.
  - exact Hspan.
  - intros HL. rewrite Hn. apply wrap32_small.
    pose proof (total_cost_bound ib evs Hacc) as Hb.
    rewrite Hspan in Hb by lia. lia.
Qed.

Lemma charges_follow_cost_rules_witness :
  FlzCompressLen_trace sevens
    = Ok (11, [Literal 2; Match 0 2 2 34; Literal 4]) /\
  ((forall run,
      cost (Literal run) =
        33 * (run / 32) + (if run mod 32 =? 0 then 0 else run mod 32 + 1)) /\
   (forall r i d l,
      cost (Match r i d l) =
        3 * (1 + (l - 3) / 262) - (if l <? 9 then 1 else 0)) /\
   (forall r i d l,
      In (Match r i d l) [Literal 2; Match 0 2 2 34; Literal 4] -> 3 <= l) /\
   11 = wrap32 (sumZ (map cost [Literal 2; Match 0 2 2 34; Literal 4])) /\
   (Z.of_nat (length sevens) < 2 ^ 32 ->
    sumZ (map span [Literal 2; Match 0 2 2 34; Literal 4])
      = Z.of_nat (length sevens)) /\
   (Z.of_nat (length sevens) < 2 ^ 31 ->
    11 = sumZ (map cost [Literal 2; Match 0 2 2 34; Literal 4]))).
Proof.
  split; [vm_compute; reflexivity|].
  apply (charges_follow_cost_rules sevens 11
           [Literal 2; Match 0 2 2 34; Literal 4]).
  vm_compute. reflexivity.
Defined.

(** The two rules on small arguments: 32 literals cost 33, one more costs
    2 more; a match of 8 costs 2, of 9 costs 3, of 265 costs 6. *)
Example cost_examples :
  literals 0 32 = 33 /\ literals 0 33 = 35 /\ literals 0 0 = 0 /\
  match_cost 3 = 2 /\ match_cost 8 = 2 /\ match_cost 9 = 3 /\
  match_cost 264 = 3 /\ match_cost 265 = 6.
Proof. repeat split; reflexivity. Qed.

(** C8.  With the gate off the call is a normal return of the pair of nil
    pointers, whatever the payload, the oracle values and the flags; that
    is not a fee of zero.  Nothing is computed: the store is untouched and
    [FlzCompressLen] is not called, so there is no panic either. *)
Theorem gate_off_not_applicable (config : params.ChainConfig)
    (l1BaseFee overhead scalar blockTime : Z) (tx : L1CostData) :
  params.Optimism config = None ->
  L1Cost config l1BaseFee overhead scalar blockTime tx = Ok None /\
  (forall gasUsed,
     L1Cost config l1BaseFee overhead scalar blockTime tx
       <> Ok (Some (0, gasUsed))) /\
  (forall pb po ps h,
     newL1CostFunc config pb po ps blockTime tx h
       = Ok ((big.nil, big.nil), h)).
Proof.
  intros Hoff. split; [now apply L1Cost_off|]. split.
  - intros g. rewrite L1Cost_off by assumption. discriminate.
  - intros pb po ps h. now apply newL1CostFunc_off.
Qed.

Lemma gate_off_not_applicable_witness :
  params.Optimism plainConfig = None /\
  L1Cost plainConfig 1 1 1000000 0 (NewL1CostData []) = Ok None /\
  (forall gasUsed,
     L1Cost plainConfig 1 1 1000000 0 (NewL1CostData [])
       <> Ok (Some (0, gasUsed))) /\
  (forall pb po ps h,
     newL1CostFunc plainConfig pb po ps 0 (NewL1CostData []) h
       = Ok ((big.nil, big.nil), h)).
Proof.
  split; [reflexivity|].
  apply (gate_off_not_applicable plainConfig 1 1 1000000 0 (NewL1CostData [])).
  reflexivity.
Defined.

(** A fee of zero is another outcome: with the gate on and a zero base fee
    the call returns the fee 0 and the gas used. *)
Example zero_fee_is_not_off :
  L1Cost testConfig 0 1 1000000 1 (NewL1CostData emptyTx)
    = Ok (Some (0, 481)) /\
  L1Cost plainConfig 0 1 1000000 1 (NewL1CostData emptyTx) = Ok None.
Proof. split; reflexivity. Qed.

(** C9.  The vectors of [TestRollupGasData]: base fee 1, overhead 1,
    scalar 1000000 and the serialized [emptyTx].  At block time 0 Regolith
    is inactive and the fee is 1569; at block time 1 it is active and the
    fee is 481.  The earlier version of the file, which the test was
    written for, and the current one before Eclipse agree. *)
Theorem reference_vectors :
  Legacy.NewL1CostData emptyTx = {| Legacy.zeroes := 0; Legacy.ones := 30 |} /\
  LegacyCall.L1Cost testConfig 1 1 1000000 0 (Legacy.NewL1CostData emptyTx)
    = Ok (Some (1569, 1569)) /\
  LegacyCall.L1Cost testConfig 1 1 1000000 1 (Legacy.NewL1CostData emptyTx)
    = Ok (Some (481, 481)) /\
  L1Cost testConfig 1 1 1000000 0 (NewL1CostData emptyTx)
    = Ok (Some (1569, 1569)) /\
  L1Cost testConfig 1 1 1000000 1 (NewL1CostData emptyTx)
    = Ok (Some (481, 481)).
Proof. repeat split; reflexivity. Qed.

(** The payload without any byte would give other fees: the vectors are
    those of the serialized transaction, not of its empty data field. *)
Example empty_payload_fees :
  L1Cost testConfig 1 1 1000000 0 (NewL1CostData []) = Ok (Some (1089, 1089)) /\
  L1Cost testConfig 1 1 1000000 1 (NewL1CostData []) = Ok (Some (1, 1)).
Proof. split; reflexivity. Qed.

(** C10.  For non-negative oracle values, raising any of them never lowers
    a result: the gas used grows with the overhead, the fee with each of
    the three.  The kind of outcome does not depend on the oracle values:
    both calls return or both panic. *)
Theorem results_monotone (config : params.ChainConfig) (blockTime : Z)
    (tx : L1CostData)
    (l1BaseFee l1BaseFee' overhead overhead' scalar scalar' : Z) :
  params.Optimism config <> None ->
  0 <= l1BaseFee <= l1BaseFee' ->
  0 <= overhead <= overhead' ->
  0 <= scalar <= scalar' ->
  match L1Cost config l1BaseFee overhead scalar blockTime tx,
        L1Cost config l1BaseFee' overhead' scalar' blockTime tx with
  | Ok (Some (fee, gasUsed)), Ok (Some (fee', gasUsed')) =>
      fee <= fee' /\ gasUsed <= gasUsed' /\
      gasUsed' - gasUsed = overhead' - overhead
  | Panic, Panic => True
  | OutOfFuel, OutOfFuel => True
  | _, _ => False
  end.
Proof.
  intros Hon Hb Ho Hs. rewrite !L1Cost_on by assumption.
  destruct (l1Gas _ _ tx) as [gas| |] eqn:Hgas; cbn [bind]; try exact I.
  apply l1Gas_range in Hgas.
  split; [|lia].
  apply Z.div_le_mono; [lia|].
  assert (H0 : 0 <= (gas + overhead) * l1BaseFee)
    by (apply Z.mul_nonneg_nonneg; lia).
  assert (H1 : (gas + overhead) * l1BaseFee <= (gas + overhead') * l1BaseFee')
    by (apply Z.mul_le_mono_nonneg; lia).
  apply Z.mul_le_mono_nonneg; lia.
Qed.

Lemma results_monotone_witness :
  params.Optimism testConfig <> None /\
  0 <= 3 <= 4 /\ 0 <= 5 <= 9 /\ 0 <= 999999 <= 1000001 /\
  match L1Cost testConfig 3 5 999999 1 (NewL1CostData emptyTx),
        L1Cost testConfig 4 9 1000001 1 (NewL1CostData emptyTx) with
  | Ok (Some (fee, gasUsed)), Ok (Some (fee', gasUsed')) =>
      fee <= fee' /\ gasUsed <= gasUsed' /\ gasUsed' - gasUsed = 9 - 5
  | Panic, Panic => True
  | OutOfFuel, OutOfFuel => True
  | _, _ => False
  end.
Proof.
  split; [discriminate|]. split; [lia|]. split; [lia|]. split; [lia|].
  apply (results_monotone testConfig 1 (NewL1CostData emptyTx) 3 4 5 9
           999999 1000001); [discriminate|lia|lia|lia].
Defined.


(** * Further properties of the fee function *)

Lemma call_in_store (config : params.ChainConfig)
    (h : list Z) (kb ko ks : nat) (base ov sc blockTime gas : Z)
    (tx : L1CostData) :
  params.Optimism config <> None ->
  h !! kb = Some base -> h !! ko = Some ov -> h !! ks = Some sc ->
  l1Gas (params.IsRegolith config blockTime)
        (params.IsEclipse config blockTime) tx = Ok gas ->
  exists pf pu h',
    newL1CostFunc config (Some kb) (Some ko) (Some ks) blockTime tx h
      = Ok ((Some pf, Some pu), h') /\
    pf <> pu /\ (length h <= pf)%nat /\ (length h <= pu)%nat /\
    (forall k v, h !! k = Some v -> h' !! k = Some v) /\
    h' !! pu = Some (gas + ov) /\
    h' !! pf = Some ((gas + ov) * base * sc / 1000000).
Proof.
  intros Hon Hb Ho Hs Hgas. unfold newL1CostFunc.
  destruct (params.Optimism config) as [o|]; [clear Hon|congruence].
  unfold big.bnd at 1. unfold big.lift. rewrite Hgas. cbn [bind].
  rewrite (l1Fee_run h kb ko ks base ov sc gas Hb Ho Hs).
  exists (S (length h)), (length h),
    (h ++ [gas + ov; (gas + ov) * base * sc / 1000000; 1000000]).
  split; [reflexivity|]. split; [lia|]. split; [lia|]. split; [lia|].
  split; [|split].
  - intros k v Hk. rewrite lookup_app_l; [assumption|].
    eapply lookup_lt_Some; eauto.
  - apply list_lookup_middle. reflexivity.
  - change (h ++ [gas + ov; (gas + ov) * base * sc / 1000000; 1000000])
      with (h ++ [gas + ov] ++ [(gas + ov) * base * sc / 1000000; 1000000]).
    rewrite app_assoc. apply list_lookup_middle.
    rewrite length_app. cbn. lia.
Qed.

(** A call in any store in which the three oracle pointers can be read;
    they may alias.  With the gate off it returns the two nil pointers and
    the store as it was.  With the gate on it panics when the first half
    of the closure does (Eclipse and a payload shorter than 13 bytes), and
    otherwise returns two fresh cells, distinct from one another, that
    hold [gas + overhead] and the fee, while every cell that existed keeps
    its value, the oracle cells among them: the closure can be called
    again with the same effect. *)
Theorem call_leaves_store_intact (config : params.ChainConfig)
    (h : list Z) (kb ko ks : nat) (base ov sc blockTime : Z)
    (tx : L1CostData) :
  h !! kb = Some base -> h !! ko = Some ov -> h !! ks = Some sc ->
  match params.Optimism config,
        l1Gas (params.IsRegolith config blockTime)
              (params.IsEclipse config blockTime) tx with
  | None, _ =>
      newL1CostFunc config (Some kb) (Some ko) (Some ks) blockTime tx h
        = Ok ((big.nil, big.nil), h)
  | Some _, Ok gas =>
      exists pf pu h',
        newL1CostFunc config (Some kb) (Some ko) (Some ks) blockTime tx h
          = Ok ((Some pf, Some pu), h') /\
        pf <> pu /\ (length h <= pf)%nat /\ (length h <= pu)%nat /\
        (forall k v, h !! k = Some v -> h' !! k = Some v) /\
        h' !! pu = Some (gas + ov) /\
        h' !! pf = Some ((gas + ov) * base * sc / 1000000)
  | Some _, Panic =>
      newL1CostFunc config (Some kb) (Some ko) (Some ks) blockTime tx h
        = Panic
  | Some _, OutOfFuel =>
      newL1CostFunc config (Some kb) (Some ko) (Some ks) blockTime tx h
        = OutOfFuel
  end /\
  (params.Optimism config <> None ->
   Z.of_nat (length (data tx)) < 2 ^ 32 ->
   (l1Gas (params.IsRegolith config blockTime)
          (params.IsEclipse config blockTime) tx = Panic <->
    params.IsEclipse config blockTime = true /\
    Z.of_nat (length (data tx)) < 13) /\
   l1Gas (params.IsRegolith config blockTime)
         (params.IsEclipse config blockTime) tx <> OutOfFuel).
Proof.
  intros Hb Ho Hs. split.
  - destruct (params.Optimism config) as [o|] eqn:Hgate.
    + destruct (l1Gas _ _ tx) as [gas| |] eqn:Hgas.
      * apply (call_in_store config h kb ko ks base ov sc blockTime gas tx);
          [congruence|assumption..].
      * unfold newL1CostFunc. rewrite Hgate.
        unfold big.bnd, big.lift. now rewrite Hgas.
      * unfold newL1CostFunc. rewrite Hgate.
        unfold big.bnd, big.lift. now rewrite Hgas.
    + now apply newL1CostFunc_off.
  - intros _ HL. destruct (params.IsEclipse config blockTime) eqn:He.
    + rewrite l1Gas_eclipse, FlzCompressLen_of_trace.
      destruct (Z.lt_ge_cases (Z.of_nat (length (data tx))) 13) as [Hs13|Hl13].
      * rewrite FlzCompressLen_trace_short by assumption. cbn [bind].
        split; [|discriminate]. split; [intros _; split; [reflexivity|lia]|].
        reflexivity.
      * destruct (FlzCompressLen_trace_long (data tx) Hl13 HL)
          as (n & evs & -> & _).
        cbn [bind]. split; [|discriminate].
        split; [discriminate|]. intros [_ Hlt]. lia.
    + destruct (l1Gas_counting_ok (params.IsRegolith config blockTime) tx)
        as (gas & -> & _).
      split; [|discriminate].
      split; [discriminate|]. intros [Hf _]. discriminate.
Qed.

Lemma call_leaves_store_intact_witness :
  [2; 1000000] !! 0%nat = Some 2 /\
  [2; 1000000] !! 1%nat = Some 1000000 /\
  exists pf pu h',
    newL1CostFunc testConfig (Some 0%nat) (Some 1%nat) (Some 1%nat) 1
      (NewL1CostData emptyTx) [2; 1000000]
      = Ok ((Some pf, Some pu), h') /\
    pf <> pu /\ (2 <= pf)%nat /\ (2 <= pu)%nat /\
    (forall k v, [2; 1000000] !! k = Some v -> h' !! k = Some v) /\
    h' !! pu = Some (480 + 1000000) /\
    h' !! pf = Some ((480 + 1000000) * 2 * 1000000 / 1000000).
Proof.
  split; [reflexivity|]. split; [reflexivity|].
  exact (proj1 (call_leaves_store_intact testConfig [2; 1000000] 0 1 1
                  2 1000000 1000000 1 (NewL1CostData emptyTx)
                  eq_refl eq_refl eq_refl)).
Defined.

(** The other two outcomes: the gate off, and the panic under Eclipse. *)
Example call_without_result :
  newL1CostFunc plainConfig (Some 0%nat) (Some 1%nat) (Some 1%nat) 1
    (NewL1CostData emptyTx) [2; 1000000]
    = Ok ((big.nil, big.nil), [2; 1000000]) /\
  newL1CostFunc (eclipseConfig true) (Some 0%nat) (Some 1%nat) (Some 1%nat) 1
    (NewL1CostData []) [2; 1000000] = Panic.
Proof. split; reflexivity. Qed.

(** Before Eclipse the current version of the closure is the earlier one:
    on the same bytes, in the same store and with the same pointers, nil or
    not, both have the same effect. *)
Theorem versions_agree_before_eclipse (config : params.ChainConfig)
    (pb po ps : big.Int) (blockTime : Z) (bytes : list byte) (h : list Z) :
  params.IsEclipse config blockTime = false ->
  newL1CostFunc config pb po ps blockTime (NewL1CostData bytes) h =
    Legacy.newL1CostFunc config pb po ps blockTime
      (Legacy.NewL1CostData bytes) h.
Proof.
  intros He. unfold newL1CostFunc, Legacy.newL1CostFunc.
  destruct (params.Optimism config) as [o|]; [|reflexivity].
  rewrite He, l1Gas_legacy. reflexivity.
Qed.

Lemma versions_agree_before_eclipse_witness :
  params.IsEclipse testConfig 1 = false /\
  newL1CostFunc testConfig (Some 0%nat) (Some 1%nat) None 1
    (NewL1CostData emptyTx) [2; 1000000] =
  Legacy.newL1CostFunc testConfig (Some 0%nat) (Some 1%nat) None 1
    (Legacy.NewL1CostData emptyTx) [2; 1000000].
Proof.
  split; [reflexivity|].
  apply (versions_agree_before_eclipse testConfig (Some 0%nat) (Some 1%nat)
           None 1 emptyTx [2; 1000000]).
  reflexivity.
Defined.

(** The earlier [NewL1CostData] counts: for a payload below 2^64 bytes its
    two fields are the numbers of zero and of non-zero bytes, and they add
    up to the length. *)
Theorem legacy_counts (bytes : list byte) :
  Z.of_nat (length bytes) < 2 ^ 64 ->
  Legacy.zeroes (Legacy.NewL1CostData bytes) = zero_count bytes /\
  Legacy.ones (Legacy.NewL1CostData bytes) = nonzero_count bytes /\
  Legacy.zeroes (Legacy.NewL1CostData bytes)
    + Legacy.ones (Legacy.NewL1CostData bytes) = Z.of_nat (length bytes).
Proof.
  intros Hlen. unfold Legacy.NewL1CostData. rewrite count_bytes_spec.
  cbn [Legacy.zeroes Legacy.ones].
  pose proof (count_total bytes). pose proof (zero_count_nonneg bytes).
  pose proof (nonzero_count_nonneg bytes).
  rewrite !wrap64_small by lia. repeat split; lia.
Qed.

Lemma legacy_counts_witness :
  Z.of_nat (length (x00 :: emptyTx)) < 2 ^ 64 /\
  Legacy.zeroes (Legacy.NewL1CostData (x00 :: emptyTx))
    = zero_count (x00 :: emptyTx) /\
  Legacy.ones (Legacy.NewL1CostData (x00 :: emptyTx))
    = nonzero_count (x00 :: emptyTx) /\
  Legacy.zeroes (Legacy.NewL1CostData (x00 :: emptyTx))
    + Legacy.ones (Legacy.NewL1CostData (x00 :: emptyTx))
    = Z.of_nat (length (x00 :: emptyTx)).
Proof.
  split; [vm_compute; reflexivity|].
  apply (legacy_counts (x00 :: emptyTx)). vm_compute. reflexivity.
Defined.

Lemma zero_count_perm (l l' : list byte) :
  Permutation l l' -> zero_count l = zero_count l'.
Proof.
  unfold zero_count. induction 1 as [|x l l' _ IH|x y l|l l' l'' _ IH1 _ IH2].
  - reflexivity.
  - cbn [List.filter]. destruct (Byte.eqb x x00); cbn [length]; lia.
  - cbn [List.filter].
    destruct (Byte.eqb x x00), (Byte.eqb y x00); reflexivity.
  - lia.
Qed.

Lemma nonzero_count_perm (l l' : list byte) :
  Permutation l l' -> nonzero_count l = nonzero_count l'.
Proof.
  intros Hp. pose proof (count_total l) as H1.
  pose proof (count_total l') as H2.
  rewrite (zero_count_perm l l' Hp) in H1.
  apply Permutation_length in Hp. lia.
Qed.

(** Before Eclipse the order of the bytes does not matter: two payloads
    that are permutations of one another cost the same gas.  Under Eclipse
    it does matter, see [eclipse_order_matters]. *)
Theorem counting_gas_order_independent (isRegolith : bool)
    (bytes bytes' : list byte) :
  Permutation bytes bytes' ->
  l1Gas isRegolith false (NewL1CostData bytes) =
    l1Gas isRegolith false (NewL1CostData bytes').
Proof.
  intros Hp. rewrite !counting_gas_mod. cbn [data NewL1CostData].
  now rewrite (zero_count_perm _ _ Hp), (nonzero_count_perm _ _ Hp).
Qed.

Lemma counting_gas_order_independent_witness :
  Permutation [x00; x01; x02] [x02; x00; x01] /\
  l1Gas true false (NewL1CostData [x00; x01; x02]) =
    l1Gas true false (NewL1CostData [x02; x00; x01]).
Proof.
  assert (Hp : Permutation [x00; x01; x02] [x02; x00; x01]).
  { apply (perm_trans (l' := [x00; x02; x01])).
    - apply perm_skip. apply perm_swap.
    - apply perm_swap. }
  split; [exact Hp|].
  apply (counting_gas_order_independent true [x00; x01; x02]
           [x02; x00; x01] Hp).
Defined.

Lemma interleave_perm (x y : byte) (k : nat) :
  Permutation (replicate k x ++ replicate k y) (concat (replicate k [x; y])).
Proof.
  induction k as [|k IH]; [constructor|].
  cbn [replicate concat app]. apply perm_skip.
  eapply perm_trans; [apply Permutation_sym, Permutation_middle|].
  now apply perm_skip.
Qed.

Example eclipse_order_matters :
  Permutation (replicate 16 x01 ++ replicate 16 x02)
              (concat (replicate 16 [x01; x02])) /\
  FlzCompressLen (replicate 16 x01 ++ replicate 16 x02) = Ok 16 /\
  FlzCompressLen (concat (replicate 16 [x01; x02])) = Ok 11.
Proof. split; [apply interleave_perm|split; reflexivity]. Qed.

(** Regolith removes the 68 bytes added for the signature: on every
    payload below 2^60 - 68 bytes the gas before Regolith is the gas under
    Regolith plus 68 * 16 = 1088, and under Regolith it lies between 4 and
    16 per byte. *)
Theorem regolith_discount (tx : L1CostData) :
  Z.of_nat (length (data tx)) + 68 < 2 ^ 60 ->
  exists gas,
    l1Gas true false tx = Ok gas /\
    l1Gas false false tx = Ok (gas + 1088) /\
    4 * Z.of_nat (length (data tx)) <= gas <= 16 * Z.of_nat (length (data tx)).
Proof.
  intros Hlen. rewrite !l1Gas_counting by assumption.
  pose proof (count_total (data tx)). pose proof (zero_count_nonneg (data tx)).
  pose proof (nonzero_count_nonneg (data tx)).
  eexists. split; [reflexivity|]. split; [f_equal; lia|lia].
Qed.

Lemma regolith_discount_witness :
  Z.of_nat (length (data (NewL1CostData emptyTx))) + 68 < 2 ^ 60 /\
  exists gas,
    l1Gas true false (NewL1CostData emptyTx) = Ok gas /\
    l1Gas false false (NewL1CostData emptyTx) = Ok (gas + 1088) /\
    4 * Z.of_nat (length (data (NewL1CostData emptyTx))) <= gas
      <= 16 * Z.of_nat (length (data (NewL1CostData emptyTx))).
Proof.
  split; [vm_compute; reflexivity|].
  apply (regolith_discount (NewL1CostData emptyTx)). vm_compute. reflexivity.
Defined.

(** ** The public constructor *)

Lemma L1CostOf_eq (config : params.ChainConfig) (statedb : StateGetter)
    (blockTime : Z) (tx : L1CostData) :
  L1CostOf config statedb blockTime tx =
    let* r := L1Cost config
                (Z.of_N (GetState statedb L1BlockAddr L1BaseFeeSlot))
                (Z.of_N (GetState statedb L1BlockAddr OverheadSlot))
                (Z.of_N (GetState statedb L1BlockAddr ScalarSlot))
                blockTime tx in
    Ok (option_map fst r).
Proof.
  set (base := Z.of_N (GetState statedb L1BlockAddr L1BaseFeeSlot)).
  set (ov := Z.of_N (GetState statedb L1BlockAddr OverheadSlot)).
  set (sc := Z.of_N (GetState statedb L1BlockAddr ScalarSlot)).
  unfold L1CostOf, NewL1CostFunc, run, common.Big.
  fold base ov sc.
  unfold big.bnd at 1 2 3 4 5. unfold big.NewInt, big.ret.
  cbn [bind length app]. unfold big.bnd at 1.
  destruct (params.Optimism config) as [o|] eqn:Hgate.
  - rewrite L1Cost_on by congruence.
    unfold newL1CostFunc. rewrite Hgate.
    unfold big.bnd at 1. unfold big.lift.
    destruct (l1Gas _ _ tx) as [gas| |]; cbn [bind]; [|reflexivity..].
    rewrite (l1Fee_run [base; ov; sc] 0 1 2 base ov sc gas) by reflexivity.
    cbn [bind length app fst option_map]. reflexivity.
  - rewrite L1Cost_off by assumption.
    rewrite newL1CostFunc_off by assumption. reflexivity.
Qed.

(** [NewL1CostFunc] reads the state at three places only, the slots 1, 5
    and 6 of [L1BlockAddr]: two states that agree there give the same fee
    for every payload.  The fee is the first result of [newL1CostFunc] on
    the three numbers read, and since a slot holds a natural number it is
    never negative. *)
Theorem public_fee_reads_three_slots (config : params.ChainConfig)
    (statedb statedb' : StateGetter) (blockTime : Z) (tx : L1CostData) :
  GetState statedb L1BlockAddr L1BaseFeeSlot
    = GetState statedb' L1BlockAddr L1BaseFeeSlot ->
  GetState statedb L1BlockAddr OverheadSlot
    = GetState statedb' L1BlockAddr OverheadSlot ->
  GetState statedb L1BlockAddr ScalarSlot
    = GetState statedb' L1BlockAddr ScalarSlot ->
  L1CostOf config statedb blockTime tx
    = L1CostOf config statedb' blockTime tx /\
  L1CostOf config statedb blockTime tx =
    (let* r := L1Cost config
                 (Z.of_N (GetState statedb L1BlockAddr L1BaseFeeSlot))
                 (Z.of_N (GetState statedb L1BlockAddr OverheadSlot))
                 (Z.of_N (GetState statedb L1BlockAddr ScalarSlot))
                 blockTime tx in
     Ok (option_map fst r)) /\
  (forall fee, L1CostOf config statedb blockTime tx = Ok (Some fee) ->
               0 <= fee).
Proof.
  intros Hb Ho Hs. split; [|split].
  - rewrite !L1CostOf_eq, Hb, Ho, Hs. reflexivity.
  - apply L1CostOf_eq.
  - intros fee. rewrite L1CostOf_eq.
    destruct (params.Optimism config) as [o|] eqn:Hgate.
    + rewrite L1Cost_on by congruence.
      destruct (l1Gas _ _ tx) as [gas| |] eqn:Hgas; cbn [bind]; try discriminate.
      cbn [option_map fst]. intros [= <-].
      apply l1Gas_range in Hgas.
      apply Z.div_pos; [|lia].
      repeat apply Z.mul_nonneg_nonneg; lia.
    + rewrite L1Cost_off by assumption. cbn. discriminate.
Qed.

Lemma public_fee_reads_three_slots_witness :
  L1CostOf testConfig (oracleState 1 1 1000000 0) 1 (NewL1CostData emptyTx)
    = L1CostOf testConfig (oracleState 1 1 1000000 77) 1
        (NewL1CostData emptyTx) /\
  L1CostOf testConfig (oracleState 1 1 1000000 0) 1 (NewL1CostData emptyTx) =
    (let* r := L1Cost testConfig
                 (Z.of_N (GetState (oracleState 1 1 1000000 0) L1BlockAddr
                            L1BaseFeeSlot))
                 (Z.of_N (GetState (oracleState 1 1 1000000 0) L1BlockAddr
                            OverheadSlot))
                 (Z.of_N (GetState (oracleState 1 1 1000000 0) L1BlockAddr
                            ScalarSlot))
                 1 (NewL1CostData emptyTx) in
     Ok (option_map fst r)) /\
  (forall fee,
     L1CostOf testConfig (oracleState 1 1 1000000 0) 1 (NewL1CostData emptyTx)
       = Ok (Some fee) -> 0 <= fee).
Proof.
  apply (public_fee_reads_three_slots testConfig (oracleState 1 1 1000000 0)
           (oracleState 1 1 1000000 77) 1 (NewL1CostData emptyTx));
    reflexivity.
Defined.

Example public_fee_example :
  L1CostOf testConfig (oracleState 1 1 1000000 77) 1 (NewL1CostData emptyTx)
    = Ok (Some 481) /\
  L1CostOf plainConfig (oracleState 1 1 1000000 77) 1 (NewL1CostData emptyTx)
    = Ok None.
Proof. split; reflexivity. Qed.

(** * Further properties of the estimator *)

(** ** Words and bytes *)

Lemma lor_shiftl_add (a x k : Z) :
  0 <= k -> 0 <= a < 2 ^ k -> Z.lor a (Z.shiftl x k) = a + Z.shiftl x k.
Proof.
  intros Hk Ha. rewrite <- Z.add_lor_land.
  assert (H0 : Z.land a (Z.shiftl x k) = 0).
  { apply Z.bits_inj'. intros n Hn. rewrite Z.land_spec, Z.bits_0.
    destruct (Z.lt_ge_cases n k) as [Hlt|Hge].
    - rewrite Z.shiftl_spec_low by assumption. apply andb_false_r.
    - rewrite <- (Z.mod_small a (2 ^ k)) by assumption.
      rewrite Z.mod_pow2_bits_high by lia. reflexivity. }
  rewrite H0. lia.
Qed.

Lemma index_byte ib i x :
  index ib i = Ok x ->
  0 <= x < 256 /\
  exists y, ib !! Z.to_nat i = Some y /\ x = Z.of_N (Byte.to_N y).
Proof.
  unfold index. destruct (ib !! Z.to_nat i) as [y|]; [|discriminate].
  intros [= <-]. pose proof (Byte.to_N_bounded y). split; [lia|]. eauto.
Qed.

Lemma byte_of_value (y y' : byte) :
  Z.of_N (Byte.to_N y) = Z.of_N (Byte.to_N y') -> y = y'.
Proof.
  intros H. apply N2Z.inj in H.
  pose proof (Byte.of_to_N y) as E. rewrite H, Byte.of_to_N in E.
  congruence.
Qed.

(** The 24-bit window of a word that was read is made of its first three
    bytes. *)
Lemma u32_window ib i w :
  Z.of_nat (length ib) < 2 ^ 32 -> 0 <= i < 2 ^ 32 ->
  u32 ib i = Ok w ->
  exists b0 b1 b2,
    index ib i = Ok b0 /\ index ib (i + 1) = Ok b1 /\
    index ib (i + 2) = Ok b2 /\
    Z.land w m = b0 + 256 * b1 + 65536 * b2.
Proof.
  intros HL Hi H. pose proof (u32_inv ib i w HL Hi H) as Hin.
  unfold u32 in H.
  rewrite (add32_small i 1), (add32_small i 2), (add32_small i 3) in H by lia.
  bind_inv H b0 H0. bind_inv H b1 H1. bind_inv H b2 H2. bind_inv H b3 H3.
  injection H as <-.
  destruct (index_byte _ _ _ H0) as [R0 _].
  destruct (index_byte _ _ _ H1) as [R1 _].
  destruct (index_byte _ _ _ H2) as [R2 _].
  destruct (index_byte _ _ _ H3) as [R3 _].
  exists b0, b1, b2. repeat split; try assumption.
  unfold shl32.
  rewrite !Z.shiftl_mul_pow2 by lia.
  rewrite (wrap32_small (b1 * 2 ^ 8)), (wrap32_small (b2 * 2 ^ 16)),
          (wrap32_small (b3 * 2 ^ 24)) by lia.
  rewrite <- !Z.shiftl_mul_pow2 by lia.
  rewrite (lor_shiftl_add b0 b1 8) by lia.
  rewrite Z.shiftl_mul_pow2 by lia.
  rewrite (lor_shiftl_add (b0 + b1 * 2 ^ 8) b2 16) by lia.
  rewrite Z.shiftl_mul_pow2 by lia.
  rewrite (lor_shiftl_add (b0 + b1 * 2 ^ 8 + b2 * 2 ^ 16) b3 24) by lia.
  rewrite Z.shiftl_mul_pow2 by lia.
  rewrite land_m.
  rewrite Z.mod_add by lia. rewrite Z.mod_small by lia. lia.
Qed.

(** Equal windows are three equal bytes. *)
Lemma same_window_bytes ib r i :
  Z.of_nat (length ib) < 2 ^ 32 -> 0 <= r < 2 ^ 32 -> 0 <= i < 2 ^ 32 ->
  same_window ib r i -> same_bytes ib r i 3.
Proof.
  intros HL Hr Hi (w & w' & Hw & Hw' & Heq).
  destruct (u32_window ib i w HL Hi Hw) as (x0 & x1 & x2 & X0 & X1 & X2 & EX).
  destruct (u32_window ib r w' HL Hr Hw') as (y0 & y1 & y2 & Y0 & Y1 & Y2 & EY).
  destruct (index_byte _ _ _ X0) as [RX0 (cx0 & LX0 & ->)].
  destruct (index_byte _ _ _ X1) as [RX1 (cx1 & LX1 & ->)].
  destruct (index_byte _ _ _ X2) as [RX2 (cx2 & LX2 & ->)].
  destruct (index_byte _ _ _ Y0) as [RY0 (cy0 & LY0 & ->)].
  destruct (index_byte _ _ _ Y1) as [RY1 (cy1 & LY1 & ->)].
  destruct (index_byte _ _ _ Y2) as [RY2 (cy2 & LY2 & ->)].
  rewrite EX, EY in Heq.
  assert (E0 : cx0 = cy0) by (apply byte_of_value; lia).
  assert (E1 : cx1 = cy1) by (apply byte_of_value; lia).
  assert (E2 : cx2 = cy2) by (apply byte_of_value; lia).
  subst. intros k Hk.
  assert (Hcase : k = 0 \/ k = 1 \/ k = 2) by lia.
  destruct Hcase as [ -> | [ -> | -> ] ].
  - rewrite !Z.add_0_r. eauto.
  - eauto.
  - eauto.
Qed.

(** ** The log as a parse of the input *)

Lemma ht_get_lt ht i h r :
  table_lt ht i -> ht_get ht h = Ok r -> 0 <= r < i.
Proof.
  unfold ht_get, table_lt. intros Hall H.
  destruct (ht !! Z.to_nat h) as [v|] eqn:Hv; [|discriminate].
  injection H as <-. apply (Forall_lookup_1 _ _ _ _ Hall Hv).
Qed.

Lemma ht_set_lt ht i h v ht' :
  table_lt ht i -> 0 <= v < i -> ht_set ht h v = Ok ht' -> table_lt ht' i.
Proof.
  unfold ht_set, table_lt. intros Hall Hv H.
  destruct (h <? Z.of_nat (length ht)); [|discriminate].
  injection H as <-. now apply Forall_insert.
Qed.

Lemma table_lt_mono ht i i' : table_lt ht i -> i <= i' -> table_lt ht i'.
Proof.
  unfold table_lt. intros Hall Hle.
  eapply Forall_impl; [exact Hall|]. cbn. intros r Hr. lia.
Qed.

Lemma index_same ib p q x :
  index ib p = Ok x -> index ib q = Ok x ->
  exists y, ib !! Z.to_nat p = Some y /\ ib !! Z.to_nat q = Some y.
Proof.
  intros Hp Hq.
  destruct (index_byte _ _ _ Hp) as [_ (y & Ly & Ey)].
  destruct (index_byte _ _ _ Hq) as [_ (y' & Ly' & Ey')].
  assert (y = y') by (apply byte_of_value; congruence). subst y'. eauto.
Qed.

Lemma tiles_app ib evs1 : forall pos evs2 mid pos',
  tiles ib pos evs1 mid -> tiles ib mid evs2 pos' ->
  tiles ib pos (evs1 ++ evs2) pos'.
Proof.
  induction evs1 as [|e evs1 IH]; intros pos evs2 mid pos' H1 H2.
  - cbn in H1. now subst.
  - destruct e as [run|r i d l]; cbn [app tiles] in *.
    + destruct H1 as [Hr H1]. split; [assumption|]. eapply IH; eauto.
    + destruct H1 as (? & ? & ? & ? & ? & ? & H1).
      repeat split; try assumption; try lia. eapply IH; eauto.
Qed.

Lemma pair_ratio (run l : Z) :
  0 <= run -> 3 <= l ->
  32 * (literals_cost run + match_cost l) <= 33 * run + 32 * l.
Proof.
  intros Hr Hl. unfold literals_cost, match_cost.
  pose proof (Z.div_mod run 32 ltac:(lia)).
  pose proof (Z.mod_pos_bound run 32 ltac:(lia)).
  pose proof (Z.div_mod (l - 3) 262 ltac:(lia)).
  pose proof (Z.mod_pos_bound (l - 3) 262 ltac:(lia)).
  destruct (Z.eqb_spec (run mod 32) 0); destruct (Z.ltb_spec l 9); lia.
Qed.

Section parse.

Variable ib : list byte.
Hypothesis long : 13 <= Z.of_nat (length ib).
Hypothesis bounded : Z.of_nat (length ib) < 2 ^ 32.

Local Abbreviation L := (Z.of_nat (length ib)).
Local Abbreviation b := (sub32 (wrap32 L) 4).

Lemma scan_parse fuel : forall ht i ht' i' r d,
  table_lt ht i -> 0 <= i < 2 ^ 32 ->
  scan fuel ib b ht i = Ok (ht', i', r, d) ->
  i' < L - 13 ->
  exists j,
    i' = j + 1 /\ i <= j /\ table_lt ht' (j + 1) /\ 0 <= r < j /\
    d = j - r /\ d < 8192 /\ same_window ib r j.
Proof.
  induction fuel as [|fuel IH]; intros ht i ht' i' r d Hok Hi H Hlt;
    [discriminate|].
  cbn [scan] in H. bind_inv H x Hp.
  destruct x as [[[[s r0] d0] c] ht0].
  pose proof (probe_inv _ _ _ _ _ _ _ _ Hp)
    as (w & Hw & Hs & Hg & Hset & Hd & Hc).
  pose proof (ht_get_lt _ _ _ _ Hok Hg) as Hr0.
  assert (Hok0 : table_lt ht0 (i + 1)).
  { eapply ht_set_lt; [|split|exact Hset]; [|lia|lia].
    eapply table_lt_mono; [exact Hok|lia]. }
  rewrite (long_bound ib long bounded) in H.
  destruct (Z.geb_spec i (L - 13)) as [Hge|Hlt'].
  - injection H as <- <- <- <-. lia.
  - rewrite (add32_small i 1) in H by lia.
    destruct (Z.eqb_spec s c) as [Heq|Hne].
    + injection H as <- <- <- <-. exists i.
      assert (Hdd : d0 = i - r0) by (rewrite Hd; apply sub32_small; lia).
      repeat split; try assumption; try lia.
      * destruct Hc as [[Hlt8 _]|[Hge8 _]]; [lia|].
        destruct (probe_far _ _ _ _ _ _ _ _ Hp Hge8) as [_ Hsc]. contradiction.
      * destruct Hc as [[Hlt8 (w' & Hw' & Hcw)]|[Hge8 _]].
        -- exists w, w'. repeat split; try assumption. congruence.
        -- destruct (probe_far _ _ _ _ _ _ _ _ Hp Hge8) as [_ Hsc].
           contradiction.
    + destruct (IH ht0 (i + 1) ht' i' r d Hok0 ltac:(lia) H Hlt)
        as (j & ? & ? & ? & ? & ? & ? & ?).
      exists j. repeat split; try assumption; lia.
Qed.

Lemma extend_parse r i fuel : forall l l',
  0 <= r <= i -> 3 <= l -> i + l <= L - 4 ->
  extend fuel ib b r i l = Ok l' ->
  l <= l' /\ i + l' <= L - 4 /\
  forall k, l <= k < l' ->
    exists y, ib !! Z.to_nat (r + k) = Some y /\
              ib !! Z.to_nat (i + k) = Some y.
Proof.
  induction fuel as [|fuel IH]; intros l l' Hr Hl Hil H; [discriminate|].
  cbn [extend] in H. rewrite (long_b ib long bounded) in H.
  rewrite (sub32_small (L - 4) i) in H by lia.
  destruct (Z.ltb_spec l (L - 4 - i)) as [Hlt|Hge].
  2:{ injection H as <-. split; [lia|]. split; [lia|]. intros k Hk. lia. }
  rewrite (add32_small r l), (add32_small i l) in H by lia.
  bind_inv H x Hx. bind_inv H y Hy.
  destruct (Z.eqb_spec x y) as [Hxy|Hxy].
  2:{ injection H as <-. split; [lia|]. split; [lia|]. intros k Hk. lia. }
  subst y. rewrite (add32_small l 1) in H by lia.
  rewrite <- (long_b ib long bounded) in H.
  destruct (IH (l + 1) l' Hr ltac:(lia) ltac:(lia) H) as (Hle & Hin & Hk).
  split; [lia|]. split; [assumption|].
  intros k Hkr. destruct (Z.eq_dec k l) as [->|Hne].
  - apply (index_same ib (r + l) (i + l) x Hx Hy).
  - apply Hk. lia.
Qed.

Lemma outer_parse fuel : forall n ht a i n' a' evs,
  table_lt ht i -> 0 <= a <= i -> 1 <= i <= L - 4 ->
  outer fuel ib b n ht a i = Ok (n', a', evs) ->
  tiles ib a evs a' /\ a <= a' <= L - 4 /\
  32 * sumZ (map cost evs) <= 33 * sumZ (map span evs) /\
  sumZ (map span evs) = a' - a.
Proof.
  induction fuel as [|fuel IH]; intros n ht a i n' a' evs Hok Ha Hi H.
  - cbn [outer] in H. destruct (i <? sub32 b 9); [discriminate|].
    injection H as <- <- <-. cbn. lia.
  - cbn [outer] in H. rewrite (long_bound ib long bounded) in H.
    destruct (Z.ltb_spec i (L - 13)) as [Hlt|Hge].
    2:{ injection H as <- <- <-. cbn. lia. }
    bind_inv H x Hscan. destruct x as [[[ht1 i1] r] d].
    destruct (Z.geb_spec i1 (L - 13)) as [Hge1|Hlt1].
    { injection H as <- <- <-. cbn. lia. }
    destruct (scan_parse _ _ _ _ _ _ _ Hok ltac:(lia) Hscan Hlt1)
      as (j & -> & Hij & Hok1 & Hr & Hd & Hd8 & Hwin).
    cbv zeta in H.
    replace (sub32 (j + 1) 1) with j in H by (rewrite sub32_small; lia).
    bind_inv H l Hext.
    destruct (extend_parse r j _ 3 l ltac:(lia) ltac:(lia) ltac:(lia) Hext)
      as (Hl3 & HlL & Hbytes).
    rewrite (sub32_small l 2), (add32_small j (l - 2)) in H by lia.
    bind_inv H s Hs. bind_inv H ht2 Hset2.
    rewrite (add32_small (j + (l - 2)) 1) in H by lia.
    bind_inv H ht3 Hset3.
    rewrite (add32_small (j + (l - 2) + 1) 1) in H by lia.
    bind_inv H y Hrec. destruct y as [[n2 a2] evs2].
    injection H as <- <- <-.
    assert (Hok2 : table_lt ht2 (j + (l - 2) + 1 + 1)).
    { eapply ht_set_lt; [|split|exact Hset2]; [|lia|lia].
      eapply table_lt_mono; [exact Hok1|lia]. }
    assert (Hok3 : table_lt ht3 (j + (l - 2) + 1 + 1)).
    { eapply ht_set_lt; [exact Hok2| |exact Hset3]; lia. }
    apply IH in Hrec; [|assumption|lia|lia].
    destruct Hrec as (Htiles & Ha2 & Hratio & Hspan).
    assert (Hsame : same_bytes ib r j l).
    { intros k Hk. destruct (Z.lt_ge_cases k 3) as [Hk3|Hk3].
      - apply (same_window_bytes ib r j bounded ltac:(lia) ltac:(lia) Hwin).
        lia.
      - apply Hbytes. lia. }
    assert (Hmatch : tiles ib j (Match r j d l :: evs2) a2).
    { cbn [tiles]. repeat split; try assumption; try lia.
      replace (j + l) with (j + (l - 2) + 1 + 1) by lia. exact Htiles. }
    pose proof (pair_ratio 0 l ltac:(lia) ltac:(lia)) as Hp0.
    change (literals_cost 0) with 0 in Hp0.
    destruct (Z.gtb_spec j a) as [Hgt|Hle].
    + rewrite (sub32_small j a) by lia.
      pose proof (pair_ratio (j - a) l ltac:(lia) ltac:(lia)) as Hp.
      cbn [app map sumZ cost span tiles].
      split; [|split; [lia|split; lia]].
      split; [lia|]. replace (a + (j - a)) with j by lia. exact Hmatch.
    + assert (j = a) by lia. subst j.
      cbn [app map sumZ cost span].
      split; [exact Hmatch|]. split; [lia|split; lia].
Qed.

(** The log of a run that returned: the events of the loop, then the
    closing literal run of at least four bytes. *)
Lemma trace_parse n evs :
  FlzCompressLen_trace ib = Ok (n, evs) ->
  exists evs1 a1,
    evs = evs1 ++ [Literal (L - a1)] /\ tiles ib 0 evs1 a1 /\
    0 <= a1 <= L - 4 /\
    32 * sumZ (map cost evs1) <= 33 * sumZ (map span evs1) /\
    sumZ (map span evs1) = a1.
Proof.
  unfold FlzCompressLen_trace. cbv zeta. intros H.
  bind_inv H x Hout. destruct x as [[n1 a1] evs1].
  injection H as <- <-.
  apply outer_parse in Hout; [|apply Forall_replicate; lia|lia|lia].
  destruct Hout as (Ht & Ha & Hratio & Hspan).
  exists evs1, a1. repeat split; try assumption; try lia.
  rewrite (long_b ib long bounded). rewrite (add32_small (L - 4) 4) by lia.
  rewrite sub32_small by lia. do 3 f_equal. lia.
Qed.

End parse.

Lemma estimate_bounds (ib : list byte) :
  13 <= Z.of_nat (length ib) < 2 ^ 31 ->
  exists n,
    FlzCompressLen ib = Ok n /\
    5 <= n <= literals_cost (Z.of_nat (length ib)).
Proof.
  intros [Hl HL].
  destruct (FlzCompressLen_trace_long ib Hl ltac:(lia)) as (n & evs & Hrun & _).
  exists n. split; [now rewrite FlzCompressLen_of_trace, Hrun|].
  destruct (FlzCompressLen_trace_inv ib n evs Hrun) as [Hn Hacc].
  destruct (trace_parse ib Hl ltac:(lia) n evs Hrun)
    as (evs1 & a1 & -> & _ & Ha1 & Hratio & Hspan).
  apply Forall_app in Hacc as [Hacc1 _].
  pose proof (total_cost_bound ib evs1 Hacc1) as Hc1.
  rewrite map_app, sumZ_app in Hn. cbn [map sumZ cost] in Hn.
  rewrite Hspan in Hratio, Hc1.
  set (L := Z.of_nat (length ib)) in *.
  set (C := sumZ (map cost evs1)) in *.
  assert (Hfinal : 5 <= C + (literals_cost (L - a1) + 0) <= literals_cost L).
  { unfold literals_cost.
    pose proof (Z.div_mod (L - a1) 32 ltac:(lia)).
    pose proof (Z.mod_pos_bound (L - a1) 32 ltac:(lia)).
    pose proof (Z.div_mod L 32 ltac:(lia)).
    pose proof (Z.mod_pos_bound L 32 ltac:(lia)).
    destruct (Z.eqb_spec ((L - a1) mod 32) 0);
      destruct (Z.eqb_spec (L mod 32) 0); lia. }
  assert (Hlc : literals_cost L <= 2 * L).
  { unfold literals_cost.
    pose proof (Z.div_mod L 32 ltac:(lia)).
    pose proof (Z.mod_pos_bound L 32 ltac:(lia)).
    destruct (Z.eqb_spec (L mod 32) 0); lia. }
  rewrite Hn, wrap32_small by lia. exact Hfinal.
Qed.

(** The estimate of an input of 13 bytes and more, below 2 GiB, is at
    least 5 and never more than the literal-only cost of the input: the
    matches the scan finds never make the estimate worse than charging
    every byte as a literal. *)
Theorem estimate_at_most_literal_cost (ib : list byte) :
  13 <= Z.of_nat (length ib) < 2 ^ 31 ->
  exists n,
    FlzCompressLen ib = Ok n /\
    5 <= n <= literals_cost (Z.of_nat (length ib)).
Proof. apply estimate_bounds. Qed.

Lemma estimate_at_most_literal_cost_witness :
  13 <= Z.of_nat (length sevens) < 2 ^ 31 /\
  exists n,
    FlzCompressLen sevens = Ok n /\
    5 <= n <= literals_cost (Z.of_nat (length sevens)).
Proof.
  split; [vm_compute; split; [discriminate|reflexivity]|].
  apply (estimate_at_most_literal_cost sevens).
  vm_compute. split; [discriminate|reflexivity].
Defined.

(** The first lengths at which the call returns, 13 to 15 bytes: the outer
    loop is not entered and the result is the literal-only cost, one more
    than the length. *)
Theorem shortest_inputs_are_literal (ib : list byte) :
  13 <= Z.of_nat (length ib) <= 15 ->
  FlzCompressLen_trace ib
    = Ok (Z.of_nat (length ib) + 1, [Literal (Z.of_nat (length ib))]).
Proof.
  intros [Hl Hu]. unfold FlzCompressLen_trace. cbv zeta.
  cbn [outer]. rewrite (long_bound ib Hl ltac:(lia)).
  destruct (Z.ltb_spec 2 (Z.of_nat (length ib) - 13)) as [Hlt|_]; [lia|].
  cbn [bind app]. rewrite (long_b ib Hl ltac:(lia)).
  rewrite (add32_small (Z.of_nat (length ib) - 4) 4) by lia.
  rewrite sub32_small by lia.
  replace (Z.of_nat (length ib) - 4 + 4 - 0) with (Z.of_nat (length ib)) by lia.
  rewrite literals_charge. unfold literals_cost.
  rewrite (Z.div_small (Z.of_nat (length ib)) 32) by lia.
  rewrite (Z.mod_small (Z.of_nat (length ib)) 32) by lia.
  destruct (Z.eqb_spec (Z.of_nat (length ib)) 0); [lia|].
  rewrite wrap32_small by lia. do 2 f_equal; lia.
Qed.

Lemma shortest_inputs_are_literal_witness :
  13 <= Z.of_nat (length (replicate 14 x07)) <= 15 /\
  FlzCompressLen_trace (replicate 14 x07)
    = Ok (Z.of_nat (length (replicate 14 x07)) + 1,
          [Literal (Z.of_nat (length (replicate 14 x07)))]).
Proof.
  split; [vm_compute; split; discriminate|].
  apply (shortest_inputs_are_literal (replicate 14 x07)).
  vm_compute. split; discriminate.
Defined.

Lemma trace_tiles (ib : list byte) (n : Z) (evs : list event) :
  Z.of_nat (length ib) < 2 ^ 32 ->
  FlzCompressLen_trace ib = Ok (n, evs) ->
  tiles ib 0 evs (Z.of_nat (length ib)).
Proof.
  intros HL Hrun.
  destruct (Z.lt_ge_cases (Z.of_nat (length ib)) 13) as [Hs|Hl].
  { rewrite FlzCompressLen_trace_short in Hrun by assumption. discriminate. }
  destruct (trace_parse ib Hl HL n evs Hrun)
    as (evs1 & a1 & -> & Ht & Ha1 & _ & _).
  eapply tiles_app; [exact Ht|].
  cbn [tiles]. split; lia.
Qed.

(** The log of a run that returned, on an input below 4 GiB, is a parse of
    the whole input: literal runs are not empty, and every match starts
    where the previous event stopped, points to an earlier offset less
    than 8192 bytes back, and covers bytes equal to the bytes found
    there. *)
Theorem log_is_a_parse (ib : list byte) (n : Z) (evs : list event) :
  Z.of_nat (length ib) < 2 ^ 32 ->
  FlzCompressLen_trace ib = Ok (n, evs) ->
  tiles ib 0 evs (Z.of_nat (length ib)).
Proof. apply trace_tiles. Qed.

Lemma log_is_a_parse_witness :
  Z.of_nat (length sevens) < 2 ^ 32 /\
  tiles sevens 0 [Literal 2; Match 0 2 2 34; Literal 4]
    (Z.of_nat (length sevens)).
Proof.
  split; [vm_compute; reflexivity|].
  apply (log_is_a_parse sevens 11 [Literal 2; Match 0 2 2 34; Literal 4]);
    vm_compute; reflexivity.
Defined.

(** ** Decoding the log *)

Lemma copy_same (ib : list byte) (l : nat) : forall r i : nat,
  (r < i)%nat ->
  (forall k, (k < l)%nat ->
     exists x, ib !! (r + k)%nat = Some x /\ ib !! (i + k)%nat = Some x) ->
  copy l (i - r) (take i ib) = Some (take (i + l) ib).
Proof.
  induction l as [|l IH]; intros r i Hri Hk.
  - cbn [copy]. now rewrite Nat.add_0_r.
  - cbn [copy].
    destruct (Hk 0%nat ltac:(lia)) as (x & Hr & Hi).
    rewrite !Nat.add_0_r in Hr, Hi.
    pose proof (lookup_lt_Some _ _ _ Hi) as Hlen.
    rewrite length_take_le by lia.
    assert (Hc : ((1 <=? i - r) && (i - r <=? i))%nat = true).
    { apply andb_true_iff. split; apply Nat.leb_le; lia. }
    rewrite Hc.
    replace (i - (i - r))%nat with r by lia.
    rewrite lookup_take_lt by lia. rewrite Hr.
    rewrite <- (take_S_r ib i x Hi).
    replace (i - r)%nat with (S i - S r)%nat by lia.
    rewrite (IH (S r) (S i)); [f_equal; f_equal; lia|lia|].
    intros k Hkl. destruct (Hk (S k) ltac:(lia)) as (y & Hy1 & Hy2).
    exists y. split; [rewrite <- Hy1|rewrite <- Hy2]; f_equal; lia.
Qed.

Lemma decode_tiles (ib : list byte) (evs : list event) : forall pos pos',
  0 <= pos -> tiles ib pos evs pos' ->
  decode (tokens ib pos evs) (take (Z.to_nat pos) ib)
    = Some (take (Z.to_nat pos') ib).
Proof.
  induction evs as [|e evs IH]; intros pos pos' Hpos Ht.
  - cbn in *. now subst.
  - destruct e as [run|r i d l]; cbn [tiles tokens decode] in *.
    + destruct Ht as [Hrun Ht].
      rewrite take_take_drop, <- Z2Nat.inj_add by lia.
      apply IH; [lia|assumption].
    + destruct Ht as (-> & Hr & -> & Hd & Hl & Hsame & Ht).
      rewrite (Z2Nat.inj_sub pos r) by lia.
      rewrite (copy_same ib (Z.to_nat l) (Z.to_nat r) (Z.to_nat pos)).
      * rewrite <- Z2Nat.inj_add by lia. apply IH; [lia|assumption].
      * lia.
      * intros k Hk.
        destruct (Hsame (Z.of_nat k) ltac:(lia)) as (x & Hx1 & Hx2).
        exists x. split; [rewrite <- Hx1|rewrite <- Hx2]; f_equal; lia.
Qed.

(** The log of a run that returned is a decodable LZ77 stream for the
    input: writing out the bytes of each literal run and, for each match,
    copying its length from its distance back in the output, gives the
    input again. *)
Theorem log_decodes_to_input (ib : list byte) (n : Z) (evs : list event) :
  Z.of_nat (length ib) < 2 ^ 32 ->
  FlzCompressLen_trace ib = Ok (n, evs) ->
  decode (tokens ib 0 evs) [] = Some ib.
Proof.
  intros HL Hrun.
  pose proof (decode_tiles ib evs 0 (Z.of_nat (length ib)) ltac:(lia)
                (trace_tiles ib n evs HL Hrun)) as H.
  change (take (Z.to_nat 0) ib) with (@nil byte) in H.
  rewrite H. f_equal. apply take_ge. lia.
Qed.

Lemma log_decodes_to_input_witness :
  Z.of_nat (length (far_input 100)) < 2 ^ 32 /\
  decode
    (tokens (far_input 100) 0
       [Literal 17; Match 16 17 1 99; Match 0 116 116 28; Literal 4]) []
    = Some (far_input 100).
Proof.
  split; [vm_compute; reflexivity|].
  apply (log_decodes_to_input (far_input 100) 29
           [Literal 17; Match 16 17 1 99; Match 0 116 116 28; Literal 4]);
    vm_compute; reflexivity.
Defined.

Example tokens_example :
  tokens sevens 0 [Literal 2; Match 0 2 2 34; Literal 4]
    = [Lit [x07; x07]; Copy 2 34; Lit [x07; x07; x07; x07]].
Proof. reflexivity. Qed.


(** * Properties of the transaction logger *)

Section tracer_facts.

Context {Transaction : Type}.
Variable codes : vm.OpCodes.
Hypothesis distinct : NoDup (vm.all codes).

Lemma is_case_app op l k :
  live.is_case op (l ++ k) = live.is_case op l || live.is_case op k.
Proof. unfold live.is_case. apply existsb_app. Qed.

Lemma is_case_elem op l : live.is_case op l = true -> op ∈ l.
Proof.
  unfold live.is_case. intros H. apply existsb_exists in H as (x & Hin & Heq).
  apply Byte.byte_dec_bl in Heq. subst x. now apply list_elem_of_In.
Qed.

Lemma elem_is_case op l : op ∈ l -> live.is_case op l = true.
Proof.
  unfold live.is_case. intros H. apply existsb_exists. exists op.
  split; [now apply list_elem_of_In|]. now apply Byte.byte_dec_lb.
Qed.

Lemma is_case_disjoint op l k :
  NoDup (l ++ k) -> live.is_case op l = true -> live.is_case op k = false.
Proof.
  intros Hnd Hl. apply NoDup_app in Hnd as (_ & Hdis & _).
  destruct (live.is_case op k) eqn:Hk; [|reflexivity].
  exfalso. apply (Hdis op); [now apply is_case_elem|now apply is_case_elem].
Qed.

(** At most one of the five case lists holds an opcode. *)
Lemma cases_exclusive op :
  let r := live.is_case op (vm.read_ops codes) in
  let w := live.is_case op (vm.write_ops codes) in
  let l := live.is_case op (vm.log_ops codes) in
  let c := live.is_case op (vm.call_ops codes) in
  let k := live.is_case op (vm.create_ops codes) in
  (r = true -> w = false /\ l = false /\ c = false /\ k = false) /\
  (w = true -> l = false /\ c = false /\ k = false) /\
  (l = true -> c = false /\ k = false) /\
  (c = true -> k = false).
Proof.
  cbv zeta. unfold vm.all in distinct.
  pose proof distinct as D1.
  apply NoDup_app in D1 as (_ & _ & D2). pose proof D2 as D2'.
  apply NoDup_app in D2' as (_ & _ & D3). pose proof D3 as D3'.
  apply NoDup_app in D3' as (_ & _ & D4).
  split; [|split; [|split]].
  - intros H. pose proof (is_case_disjoint op _ _ distinct H) as Hn.
    rewrite !is_case_app in Hn.
    apply orb_false_elim in Hn as [? Hn].
    apply orb_false_elim in Hn as [? Hn].
    apply orb_false_elim in Hn as [? ?]. auto.
  - intros H. pose proof (is_case_disjoint op _ _ D2 H) as Hn.
    rewrite !is_case_app in Hn.
    apply orb_false_elim in Hn as [? Hn].
    apply orb_false_elim in Hn as [? ?]. auto.
  - intros H. pose proof (is_case_disjoint op _ _ D3 H) as Hn.
    rewrite !is_case_app in Hn.
    apply orb_false_elim in Hn as [? ?]. auto.
  - intros H. apply (is_case_disjoint op _ _ D4 H).
Qed.

Lemma count_ops_cons cases e es :
  live.count_ops cases (e :: es)
    = live.count_ops cases [e] + live.count_ops cases es.
Proof.
  unfold live.count_ops. cbn [List.filter].
  destruct e as [op|]; [destruct (live.is_case op cases)|]; cbn [length]; lia.
Qed.

Lemma count_faults_cons e es :
  live.count_faults (e :: es)
    = live.count_faults [e] + live.count_faults es.
Proof.
  unfold live.count_faults. cbn [List.filter].
  destruct e as [op|]; cbn [length]; lia.
Qed.

Lemma wrap64_succ' (x y : Z) : y = wrap64 x -> add64 y 1 = wrap64 (x + 1).
Proof. intros ->. apply wrap64_succ. Qed.

(** One report to a tracer that holds a transaction. *)
Lemma step_traced (t : live.txlogger Transaction) (e : live.hook)
    (tx0 : Transaction) (r w c l k f : Z) :
  live.tx t = Some tx0 ->
  live.reads t = wrap64 r -> live.writes t = wrap64 w ->
  live.calls t = wrap64 c -> live.logs t = wrap64 l ->
  live.creates t = wrap64 k -> live.faults t = wrap64 f ->
  let t' := live.step codes t e in
  live.tx t' = Some tx0 /\ live.from t' = live.from t /\
  live.config t' = live.config t /\ live.start t' = live.start t /\
  live.reads t' = wrap64 (r + live.count_ops (vm.read_ops codes) [e]) /\
  live.writes t' = wrap64 (w + live.count_ops (vm.write_ops codes) [e]) /\
  live.calls t' = wrap64 (c + live.count_ops (vm.call_ops codes) [e]) /\
  live.logs t' = wrap64 (l + live.count_ops (vm.log_ops codes) [e]) /\
  live.creates t' = wrap64 (k + live.count_ops (vm.create_ops codes) [e]) /\
  live.faults t' = wrap64 (f + live.count_faults [e]).
Proof.
  intros Htx Hr Hw Hc Hl Hk Hf. cbv zeta.
  unfold live.count_ops, live.count_faults. cbn [List.filter].
  destruct e as [op|].
  - pose proof (cases_exclusive op) as (Er & Ew & El & Ec). cbv zeta in *.
    unfold live.step, live.OnOpcode. rewrite Htx.
    destruct (live.is_case op (vm.read_ops codes)) eqn:Cr.
    { destruct (Er eq_refl) as (-> & -> & -> & ->).
      cbn [live.tx live.from live.config live.start live.reads live.writes
           live.calls live.logs live.creates live.faults length].
      rewrite !Z.add_0_r.
      repeat split; try assumption; try reflexivity.
      now apply wrap64_succ'. }
    destruct (live.is_case op (vm.write_ops codes)) eqn:Cw.
    { destruct (Ew eq_refl) as (-> & -> & ->).
      cbn [live.tx live.from live.config live.start live.reads live.writes
           live.calls live.logs live.creates live.faults length].
      rewrite !Z.add_0_r.
      repeat split; try assumption; try reflexivity.
      now apply wrap64_succ'. }
    destruct (live.is_case op (vm.log_ops codes)) eqn:Cl.
    { destruct (El eq_refl) as (-> & ->).
      cbn [live.tx live.from live.config live.start live.reads live.writes
           live.calls live.logs live.creates live.faults length].
      rewrite !Z.add_0_r.
      repeat split; try assumption; try reflexivity.
      now apply wrap64_succ'. }
    destruct (live.is_case op (vm.call_ops codes)) eqn:Cc.
    { rewrite (Ec eq_refl).
      cbn [live.tx live.from live.config live.start live.reads live.writes
           live.calls live.logs live.creates live.faults length].
      rewrite !Z.add_0_r.
      repeat split; try assumption; try reflexivity.
      now apply wrap64_succ'. }
    destruct (live.is_case op (vm.create_ops codes)) eqn:Ck.
    { cbn [live.tx live.from live.config live.start live.reads live.writes
           live.calls live.logs live.creates live.faults length].
      rewrite !Z.add_0_r.
      repeat split; try assumption; try reflexivity.
      now apply wrap64_succ'. }
    cbn [length]. rewrite !Z.add_0_r. repeat split; assumption.
  - unfold live.step, live.OnFault.
    cbn [live.tx live.from live.config live.start live.reads live.writes
         live.calls live.logs live.creates live.faults length].
    rewrite !Z.add_0_r.
    repeat split; try assumption; try reflexivity.
    now apply wrap64_succ'.
Qed.

Lemma steps_traced (es : list live.hook) :
  forall (t : live.txlogger Transaction) (tx0 : Transaction)
         (r w c l k f : Z),
  live.tx t = Some tx0 ->
  live.reads t = wrap64 r -> live.writes t = wrap64 w ->
  live.calls t = wrap64 c -> live.logs t = wrap64 l ->
  live.creates t = wrap64 k -> live.faults t = wrap64 f ->
  let t' := live.steps codes t es in
  live.tx t' = Some tx0 /\ live.from t' = live.from t /\
  live.config t' = live.config t /\ live.start t' = live.start t /\
  live.reads t' = wrap64 (r + live.count_ops (vm.read_ops codes) es) /\
  live.writes t' = wrap64 (w + live.count_ops (vm.write_ops codes) es) /\
  live.calls t' = wrap64 (c + live.count_ops (vm.call_ops codes) es) /\
  live.logs t' = wrap64 (l + live.count_ops (vm.log_ops codes) es) /\
  live.creates t' = wrap64 (k + live.count_ops (vm.create_ops codes) es) /\
  live.faults t' = wrap64 (f + live.count_faults es).
Proof.
  induction es as [|e es IH]; intros t tx0 r w c l k f Htx Hr Hw Hc Hl Hk Hf.
  - cbv zeta. unfold live.steps, live.count_ops, live.count_faults.
    cbn [fold_left List.filter length]. rewrite !Z.add_0_r. tauto.
  - cbv zeta.
    change (live.steps codes t (e :: es))
      with (live.steps codes (live.step codes t e) es).
    destruct (step_traced t e tx0 r w c l k f Htx Hr Hw Hc Hl Hk Hf)
      as (Htx1 & Hfrom1 & Hcfg1 & Hst1 & Hr1 & Hw1 & Hc1 & Hl1 & Hk1 & Hf1).
    destruct (IH _ _ _ _ _ _ _ _ Htx1 Hr1 Hw1 Hc1 Hl1 Hk1 Hf1)
      as (Htx2 & Hfrom2 & Hcfg2 & Hst2 & Hr2 & Hw2 & Hc2 & Hl2 & Hk2 & Hf2).
    cbv zeta in *.
    rewrite !(count_ops_cons _ e es), (count_faults_cons e es).
    rewrite !Z.add_assoc.
    repeat split; try assumption; congruence.
Qed.

Lemma one_counter_per_report (e : live.hook) :
  live.count_ops (vm.read_ops codes) [e]
  + live.count_ops (vm.write_ops codes) [e]
  + live.count_ops (vm.call_ops codes) [e]
  + live.count_ops (vm.log_ops codes) [e]
  + live.count_ops (vm.create_ops codes) [e]
  + live.count_faults [e] = 1
  \/
  live.count_ops (vm.read_ops codes) [e] = 0 /\
  live.count_ops (vm.write_ops codes) [e] = 0 /\
  live.count_ops (vm.call_ops codes) [e] = 0 /\
  live.count_ops (vm.log_ops codes) [e] = 0 /\
  live.count_ops (vm.create_ops codes) [e] = 0 /\
  live.count_faults [e] = 0.
Proof.
  unfold live.count_ops, live.count_faults. cbn [List.filter].
  destruct e as [op|]; [|left; reflexivity].
  pose proof (cases_exclusive op) as (Er & Ew & El & Ec). cbv zeta in *.
  destruct (live.is_case op (vm.read_ops codes)).
  { destruct (Er eq_refl) as (-> & -> & -> & ->). left. reflexivity. }
  destruct (live.is_case op (vm.write_ops codes)).
  { destruct (Ew eq_refl) as (-> & -> & ->). left. reflexivity. }
  destruct (live.is_case op (vm.log_ops codes)).
  { destruct (El eq_refl) as (-> & ->). left. reflexivity. }
  destruct (live.is_case op (vm.call_ops codes)).
  { rewrite (Ec eq_refl). left. reflexivity. }
  destruct (live.is_case op (vm.create_ops codes)).
  { left. reflexivity. }
  right. repeat split; reflexivity.
Qed.

Lemma counters_at_most_reports (es : list live.hook) :
  0 <= live.count_ops (vm.read_ops codes) es /\
  0 <= live.count_ops (vm.write_ops codes) es /\
  0 <= live.count_ops (vm.call_ops codes) es /\
  0 <= live.count_ops (vm.log_ops codes) es /\
  0 <= live.count_ops (vm.create_ops codes) es /\
  0 <= live.count_faults es /\
  live.count_ops (vm.read_ops codes) es
  + live.count_ops (vm.write_ops codes) es
  + live.count_ops (vm.call_ops codes) es
  + live.count_ops (vm.log_ops codes) es
  + live.count_ops (vm.create_ops codes) es
  + live.count_faults es <= Z.of_nat (length es).
Proof.
  induction es as [|e es IH].
  - unfold live.count_ops, live.count_faults. cbn. lia.
  - rewrite !(count_ops_cons _ e es), (count_faults_cons e es).
    cbn [length].
    assert (H0 : forall cases, 0 <= live.count_ops cases [e])
      by (intros; unfold live.count_ops; lia).
    pose proof (H0 (vm.read_ops codes)). pose proof (H0 (vm.write_ops codes)).
    pose proof (H0 (vm.call_ops codes)). pose proof (H0 (vm.log_ops codes)).
    pose proof (H0 (vm.create_ops codes)).
    assert (0 <= live.count_faults [e]) by (unfold live.count_faults; lia).
    destruct IH as (? & ? & ? & ? & ? & ? & ?).
    destruct (one_counter_per_report e) as [Hone|Hone]; lia.
Qed.

End tracer_facts.

Lemma int64_small (x : Z) : - 2 ^ 63 <= x < 2 ^ 63 -> int64 x = x.
Proof. intros H. unfold int64. rewrite Z.mod_small; lia. Qed.

Lemma evm_distinct : NoDup (vm.all vm.evm).
Proof.
  apply NoDup_ListNoDup. cbn.
  repeat (constructor; [cbn; intuition discriminate|]). constructor.
Qed.

Lemma steps_skipped {Transaction : Type} (codes : vm.OpCodes)
    (es : list live.hook) : forall (t : live.txlogger Transaction) (f : Z),
  live.tx t = None -> live.faults t = wrap64 f ->
  let t' := live.steps codes t es in
  live.tx t' = None /\
  live.reads t' = live.reads t /\ live.writes t' = live.writes t /\
  live.calls t' = live.calls t /\ live.logs t' = live.logs t /\
  live.creates t' = live.creates t /\
  live.faults t' = wrap64 (f + live.count_faults es).
Proof.
  induction es as [|e es IH]; intros t f Htx Hf.
  - cbv zeta. unfold live.steps, live.count_faults.
    cbn [fold_left List.filter length]. rewrite Z.add_0_r. tauto.
  - cbv zeta.
    change (live.steps codes t (e :: es))
      with (live.steps codes (live.step codes t e) es).
    rewrite (count_faults_cons e es), Z.add_assoc.
    destruct e as [op|].
    + assert (E : live.step codes t (live.Opcode op) = t)
        by (unfold live.step, live.OnOpcode; now rewrite Htx).
      rewrite E. unfold live.count_faults at 1. cbn [List.filter length].
      rewrite Z.add_0_r. now apply IH.
    + destruct (IH (live.step codes t live.Fault) (f + 1))
        as (? & ? & ? & ? & ? & ? & ?).
      * exact Htx.
      * cbn [live.step live.OnFault live.faults]. now apply wrap64_succ'.
      * unfold live.count_faults at 1. cbn [List.filter length].
        repeat split; assumption.
Qed.

(** The counters of a traced transaction.  After an [OnTxStart] that
    accepts the transaction, and any reports of opcodes and faults (fewer
    than 2^64), every counter is the number of reports of its kind: an
    opcode counts for the one case list that names it, each fault counts
    once, and between them the counters never exceed the number of
    reports.  The seventeen opcode constants are distinct. *)
Theorem tracer_counts {Transaction : Type} (codes : vm.OpCodes)
    (t : live.txlogger Transaction) (now vmTime : Z) (tx0 : Transaction)
    (from0 : common.Address) (es : list live.hook) :
  NoDup (vm.all codes) ->
  int64 (now - int64 vmTime) <= int64 (live.MaxAge (live.config t)) ->
  Z.of_nat (length es) < 2 ^ 64 ->
  let t' := live.steps codes
              (live.OnTxStart t now vmTime (Some tx0) from0) es in
  live.tx t' = Some tx0 /\ live.from t' = from0 /\ live.start t' = now /\
  live.reads t' = live.count_ops (vm.read_ops codes) es /\
  live.writes t' = live.count_ops (vm.write_ops codes) es /\
  live.calls t' = live.count_ops (vm.call_ops codes) es /\
  live.logs t' = live.count_ops (vm.log_ops codes) es /\
  live.creates t' = live.count_ops (vm.create_ops codes) es /\
  live.faults t' = live.count_faults es /\
  live.reads t' + live.writes t' + live.calls t' + live.logs t'
    + live.creates t' + live.faults t' <= Z.of_nat (length es).
Proof.
  intros Hd Hage Hlen. cbv zeta. unfold live.OnTxStart.
  destruct (Z.gtb_spec (int64 (now - int64 vmTime))
              (int64 (live.MaxAge (live.config t)))) as [Hgt|_]; [lia|].
  match goal with |- context [live.steps codes ?t0 es] =>
    destruct (steps_traced codes Hd es t0 tx0 0 0 0 0 0 0)
      as (Htx & Hfrom & _ & Hst & Hr & Hw & Hc & Hl & Hk & Hf);
      try reflexivity
  end.
  cbv zeta in *. cbn [live.from live.start] in Hfrom, Hst.
  pose proof (counters_at_most_reports codes Hd es)
    as (? & ? & ? & ? & ? & ? & Hsum).
  rewrite Z.add_0_l, wrap64_small in Hr, Hw, Hc, Hl, Hk, Hf by lia.
  rewrite Hr, Hw, Hc, Hl, Hk, Hf. repeat split; assumption.
Qed.

Lemma tracer_counts_witness :
  NoDup (vm.all vm.evm) /\
  int64 (1000 - int64 990) <= int64 (live.MaxAge (live.config (newLogger 60)))
  /\
  Z.of_nat (length [live.Opcode x54; live.Opcode x55; live.Fault;
                    live.Opcode x01; live.Opcode xf1; live.Opcode x54])
    < 2 ^ 64 /\
  (let t' := live.steps vm.evm
               (live.OnTxStart (newLogger 60) 1000 990 (Some tt) 7%N)
               [live.Opcode x54; live.Opcode x55; live.Fault;
                live.Opcode x01; live.Opcode xf1; live.Opcode x54] in
   live.tx t' = Some tt /\ live.from t' = 7%N /\ live.start t' = 1000 /\
   live.reads t' = 2 /\ live.writes t' = 1 /\ live.calls t' = 1 /\
   live.logs t' = 0 /\ live.creates t' = 0 /\ live.faults t' = 1 /\
   live.reads t' + live.writes t' + live.calls t' + live.logs t'
     + live.creates t' + live.faults t' <= 6).
Proof.
  split; [exact evm_distinct|]. split; [vm_compute; discriminate|].
  split; [vm_compute; reflexivity|].
  apply (tracer_counts vm.evm (newLogger 60) 1000 990 tt 7%N
           [live.Opcode x54; live.Opcode x55; live.Fault;
            live.Opcode x01; live.Opcode xf1; live.Opcode x54]);
    [exact evm_distinct|vm_compute; discriminate|vm_compute; reflexivity].
Defined.

(** A transaction that is too old is not traced.  [OnTxStart] sets the
    pointer to nil and resets nothing; whatever opcodes are reported
    afterwards, the five opcode counters keep the values they had before,
    those of an earlier transaction.  [OnFault] does not test the pointer:
    faults are still counted. *)
Theorem old_transaction_not_traced {Transaction : Type} (codes : vm.OpCodes)
    (t : live.txlogger Transaction) (now vmTime : Z)
    (tx' : option Transaction) (from' : common.Address)
    (es : list live.hook) :
  int64 (now - int64 vmTime) > int64 (live.MaxAge (live.config t)) ->
  0 <= live.faults t < 2 ^ 64 ->
  let t' := live.steps codes (live.OnTxStart t now vmTime tx' from') es in
  live.tx t' = None /\
  live.reads t' = live.reads t /\ live.writes t' = live.writes t /\
  live.calls t' = live.calls t /\ live.logs t' = live.logs t /\
  live.creates t' = live.creates t /\
  live.faults t' = wrap64 (live.faults t + live.count_faults es).
Proof.
  intros Hage Hf. cbv zeta. unfold live.OnTxStart.
  destruct (Z.gtb_spec (int64 (now - int64 vmTime))
              (int64 (live.MaxAge (live.config t)))) as [_|Hle]; [|lia].
  match goal with |- context [live.steps codes ?t0 es] =>
    destruct (steps_skipped codes es t0 (live.faults t))
      as (? & ? & ? & ? & ? & ? & ?)
  end.
  - reflexivity.
  - cbn [live.faults]. symmetry. now apply wrap64_small.
  - cbv zeta in *. repeat split; assumption.
Qed.

Lemma old_transaction_not_traced_witness :
  int64 (1000 - int64 900) > int64 (live.MaxAge (live.config (newLogger 60)))
  /\
  0 <= live.faults (newLogger 60) < 2 ^ 64 /\
  (let t' := live.steps vm.evm
               (live.OnTxStart (newLogger 60) 1000 900 (Some tt) 7%N)
               [live.Opcode x54; live.Fault] in
   live.tx t' = None /\
   live.reads t' = live.reads (newLogger 60) /\
   live.writes t' = live.writes (newLogger 60) /\
   live.calls t' = live.calls (newLogger 60) /\
   live.logs t' = live.logs (newLogger 60) /\
   live.creates t' = live.creates (newLogger 60) /\
   live.faults t' = wrap64 (live.faults (newLogger 60)
                            + live.count_faults [live.Opcode x54; live.Fault])).
Proof.
  split; [vm_compute; reflexivity|]. split; [vm_compute; split; [discriminate|reflexivity]|].
  apply (old_transaction_not_traced vm.evm (newLogger 60) 1000 900 (Some tt)
           7%N [live.Opcode x54; live.Fault]);
    [vm_compute; reflexivity|vm_compute; split; [discriminate|reflexivity]].
Defined.

(** The age filter.  For times and a [MaxAge] that fit in an [int64], a
    transaction is traced exactly when the current time is at most
    [MaxAge] seconds after the block time.  A [MaxAge] of 0 is no
    exception: a transaction whose block time lies before the current time
    is skipped. *)
Theorem age_filter {Transaction : Type} (t : live.txlogger Transaction)
    (now vmTime : Z) (tx' : option Transaction) (from' : common.Address) :
  0 <= vmTime < 2 ^ 63 -> 0 <= now < 2 ^ 63 ->
  - 2 ^ 63 <= live.MaxAge (live.config t) < 2 ^ 63 ->
  live.tx (live.OnTxStart t now vmTime tx' from') =
    (if now - vmTime >? live.MaxAge (live.config t) then None else tx') /\
  (live.MaxAge (live.config t) = 0 -> vmTime < now ->
   live.tx (live.OnTxStart t now vmTime tx' from') = None).
Proof.
  intros Hv Hn Hm.
  assert (E : live.tx (live.OnTxStart t now vmTime tx' from') =
              (if now - vmTime >? live.MaxAge (live.config t)
               then None else tx')).
  { unfold live.OnTxStart.
    rewrite (int64_small vmTime), (int64_small (now - vmTime)),
            (int64_small (live.MaxAge (live.config t))) by lia.
    now destruct (now - vmTime >? live.MaxAge (live.config t)). }
  split; [exact E|].
  intros H0 Hlt. rewrite E, H0.
  destruct (Z.gtb_spec (now - vmTime) 0); [reflexivity|lia].
Qed.

Lemma age_filter_witness :
  0 <= 999 < 2 ^ 63 /\ 0 <= 1000 < 2 ^ 63 /\
  - 2 ^ 63 <= live.MaxAge (live.config (newLogger 0)) < 2 ^ 63 /\
  live.tx (live.OnTxStart (newLogger 0) 1000 999 (Some tt) 7%N) =
    (if 1000 - 999 >? live.MaxAge (live.config (newLogger 0))
     then None else Some tt) /\
  (live.MaxAge (live.config (newLogger 0)) = 0 -> 999 < 1000 ->
   live.tx (live.OnTxStart (newLogger 0) 1000 999 (Some tt) 7%N) = None).
Proof.
  split; [lia|]. split; [lia|]. split; [vm_compute; split; [discriminate|reflexivity]|].
  apply (age_filter (newLogger 0) 1000 999 (Some tt) 7%N);
    [lia|lia|vm_compute; split; [discriminate|reflexivity]].
Defined.


(** * The estimator on a run of one byte *)

Lemma outer_exit fuel ib b n ht a i :
  sub32 b 9 <= i -> outer fuel ib b n ht a i = Ok (n, a, []).
Proof.
  intros Hi. destruct fuel; cbn [outer];
    (destruct (Z.ltb_spec i (sub32 b 9)); [lia|reflexivity]).
Qed.

Section constant_input.

Variable x : byte.
Variable k : nat.
Hypothesis long : 17 <= Z.of_nat k.
Hypothesis bounded : Z.of_nat k < 2 ^ 32.

Local Abbreviation ib := (replicate k x).
Local Abbreviation v := (Z.of_N (Byte.to_N x)).
Local Abbreviation word :=
  (Z.lor (Z.lor (Z.lor v (shl32 v 8)) (shl32 v 16)) (shl32 v 24)).

Lemma constant_length : Z.of_nat (length ib) = Z.of_nat k.
Proof. now rewrite length_replicate. Qed.

Lemma constant_index i : 0 <= i < Z.of_nat k -> index ib i = Ok v.
Proof.
  intros Hi. unfold index.
  rewrite (lookup_replicate_2 k x (Z.to_nat i)) by lia. reflexivity.
Qed.

Lemma constant_u32 i : 0 <= i -> i + 3 < Z.of_nat k -> u32 ib i = Ok word.
Proof.
  intros Hi Hk. unfold u32.
  rewrite (add32_small i 1), (add32_small i 2), (add32_small i 3) by lia.
  rewrite !constant_index by lia. reflexivity.
Qed.

Lemma constant_b : sub32 (wrap32 (Z.of_nat (length ib))) 4 = Z.of_nat k - 4.
Proof.
  rewrite constant_length, (wrap32_small (Z.of_nat k)) by lia.
  apply sub32_small. lia.
Qed.

Lemma constant_extend fuel : forall l,
  3 <= l <= Z.of_nat k - 6 -> Z.of_nat fuel + l > Z.of_nat k - 6 ->
  extend fuel ib (Z.of_nat k - 4) 0 2 l = Ok (Z.of_nat k - 6).
Proof.
  induction fuel as [|fuel IH]; intros l Hl Hf; [lia|].
  cbn [extend]. rewrite (sub32_small (Z.of_nat k - 4) 2) by lia.
  destruct (Z.ltb_spec l (Z.of_nat k - 4 - 2)) as [Hlt|Hge].
  - rewrite (add32_small 0 l), (add32_small 2 l) by lia.
    rewrite !constant_index by lia. cbn [bind].
    rewrite Z.eqb_refl, (add32_small l 1) by lia.
    apply IH; lia.
  - f_equal. lia.
Qed.

(** A run of [k] equal bytes, 17 or more: two literal bytes, one match of
    the next [k - 6] bytes against offset 0 at distance 2, and the four
    closing literal bytes.  The estimate grows by 3 for every 262 bytes. *)
Lemma constant_trace :
  FlzCompressLen_trace ib =
    Ok (8 + match_cost (Z.of_nat k - 6),
        [Literal 2; Match 0 2 2 (Z.of_nat k - 6); Literal 4]).
Proof.
  unfold FlzCompressLen_trace. cbv zeta. rewrite constant_b.
  set (ht0 := replicate (Z.to_nat 8192) 0).
  assert (Hok0 : table_ok ht0 2).
  { split; [apply length_replicate|]. apply Forall_replicate. lia. }
  assert (Hb9 : sub32 (Z.of_nat k - 4) 9 = Z.of_nat k - 13)
    by (rewrite sub32_small; lia).
  cbn [outer]. rewrite Hb9.
  destruct (Z.ltb_spec 2 (Z.of_nat k - 13)) as [_|Hge]; [|lia].
  (* the first probe, at offset 2, finds the slot of a fresh table *)
  cbn [scan]. unfold probe. rewrite (constant_u32 2) by lia. cbn [bind].
  set (s := Z.land word m).
  assert (Hget : ht_get ht0 (hash s) = Ok 0).
  { unfold ht_get, ht0. pose proof (hash_range s).
    rewrite lookup_replicate_2 by lia. reflexivity. }
  rewrite Hget. cbn [bind].
  destruct (ht_set_ok ht0 2 (hash s) 2 Hok0 (hash_range s))
    as (ht1 & -> & Hok1); [lia|lia|].
  cbn [bind]. rewrite (sub32_small 2 0) by lia.
  destruct (Z.ltb_spec (2 - 0) 8192) as [_|Hge]; [|lia].
  rewrite (constant_u32 0) by lia. cbn [bind]. fold s.
  rewrite Hb9.
  destruct (Z.geb_spec 2 (Z.of_nat k - 13)) as [Hge|_]; [lia|].
  rewrite (add32_small 2 1) by lia. rewrite Z.eqb_refl. cbn [bind].
  destruct (Z.geb_spec (2 + 1) (Z.of_nat k - 13)) as [Hge|_]; [lia|].
  rewrite (sub32_small (2 + 1) 1) by lia.
  change (2 + 1 - 1) with 2.
  destruct (Z.gtb_spec 2 0) as [_|Hle]; [|lia].
  rewrite (sub32_small 2 0) by lia. change (2 - 0) with 2.
  rewrite length_replicate.
  rewrite (constant_extend (S k) 3) by lia. cbn [bind].
  rewrite (sub32_small (Z.of_nat k - 6) 2) by lia.
  rewrite (add32_small 2 (Z.of_nat k - 6 - 2)) by lia.
  rewrite (constant_u32 (2 + (Z.of_nat k - 6 - 2))) by lia. cbn [bind].
  destruct (ht_set_ok ht1 2 (hash (Z.land word m))
              (2 + (Z.of_nat k - 6 - 2)) Hok1 (hash_range _))
    as (ht2 & -> & Hok2); [lia|lia|].
  cbn [bind].
  rewrite (add32_small (2 + (Z.of_nat k - 6 - 2)) 1) by lia.
  destruct (ht_set_ok ht2 (2 + (Z.of_nat k - 6 - 2))
              (hash (Z.shiftr word 8))
              (2 + (Z.of_nat k - 6 - 2) + 1) Hok2 (hash_range _))
    as (ht3 & -> & Hok3); [lia|lia|].
  cbn [bind].
  rewrite (add32_small (2 + (Z.of_nat k - 6 - 2) + 1) 1) by lia.
  (* the loop is left at offset k - 4 *)
  rewrite outer_exit by (rewrite Hb9; lia).
  cbn [bind app].
  rewrite (add32_small (Z.of_nat k - 4) 4) by lia.
  rewrite (sub32_small (Z.of_nat k - 4 + 4)) by lia.
  replace (Z.of_nat k - 4 + 4 - (2 + (Z.of_nat k - 6 - 2) + 1 + 1))
    with 4 by lia.
  rewrite match_charge by lia.
  rewrite !literals_charge. rewrite !wrap32_add_l.
  change (literals_cost 2) with 3. change (literals_cost 4) with 5.
  assert (Hm : 0 <= match_cost (Z.of_nat k - 6) <= 2 ^ 30).
  { unfold match_cost.
    pose proof (Z.div_mod (Z.of_nat k - 6 - 3) 262 ltac:(lia)).
    pose proof (Z.mod_pos_bound (Z.of_nat k - 6 - 3) 262 ltac:(lia)).
    destruct (Z.ltb_spec (Z.of_nat k - 6) 9); lia. }
  change (wrap32 (0 + 3)) with 3.
  rewrite wrap32_small by lia. do 2 f_equal. lia.
Qed.

End constant_input.

(** A payload of [k] copies of one byte, for [k] from 17 up to 4 GiB, is
    estimated at [11 + 3 * ((k - 9) / 262)] bytes: two literals, one match
    of [k - 6] bytes at distance 2, four literals. *)
Theorem run_of_one_byte (x : byte) (k : nat) :
  17 <= Z.of_nat k < 2 ^ 32 ->
  FlzCompressLen (replicate k x) = Ok (11 + 3 * ((Z.of_nat k - 9) / 262)) /\
  FlzCompressLen_trace (replicate k x) =
    Ok (11 + 3 * ((Z.of_nat k - 9) / 262),
        [Literal 2; Match 0 2 2 (Z.of_nat k - 6); Literal 4]).
Proof.
  intros [Hl Hu].
  assert (E : 8 + match_cost (Z.of_nat k - 6)
              = 11 + 3 * ((Z.of_nat k - 9) / 262)).
  { unfold match_cost.
    replace (Z.of_nat k - 6 - 3) with (Z.of_nat k - 9) by lia.
    destruct (Z.ltb_spec (Z.of_nat k - 6) 9); lia. }
  rewrite FlzCompressLen_of_trace, (constant_trace x k Hl Hu), E.
  split; reflexivity.
Qed.

Lemma run_of_one_byte_witness :
  17 <= Z.of_nat 40 < 2 ^ 32 /\
  FlzCompressLen (replicate 40 x07) = Ok (11 + 3 * ((Z.of_nat 40 - 9) / 262)) /\
  FlzCompressLen_trace (replicate 40 x07) =
    Ok (11 + 3 * ((Z.of_nat 40 - 9) / 262),
        [Literal 2; Match 0 2 2 (Z.of_nat 40 - 6); Literal 4]).
Proof.
  split; [vm_compute; split; [discriminate|reflexivity]|].
  apply (run_of_one_byte x07 40).
  vm_compute. split; [discriminate|reflexivity].
Defined.


(** * The estimator and the gas *)

(** On an input below 4 GiB the call returns exactly when the input has 13
    bytes or more; otherwise it panics.  It never runs on: the fuel of the
    model is never used up. *)
Theorem returns_from_thirteen_bytes (ib : list byte) :
  Z.of_nat (length ib) < 2 ^ 32 ->
  (13 <= Z.of_nat (length ib) <->
   exists n, FlzCompressLen ib = Ok n /\ 0 <= n < 2 ^ 32) /\
  (Z.of_nat (length ib) < 13 <-> FlzCompressLen ib = Panic) /\
  FlzCompressLen ib <> OutOfFuel.
Proof.
  intros HL. split; [|split].
  - split.
    + intros Hl. apply FlzCompressLen_long. lia.
    + intros (n & Hn & _).
      destruct (Z.lt_ge_cases (Z.of_nat (length ib)) 13) as [Hs|Hl]; [|lia].
      rewrite FlzCompressLen_of_trace, FlzCompressLen_trace_short in Hn
        by assumption.
      discriminate.
  - split.
    + intros Hs.
      now rewrite FlzCompressLen_of_trace, FlzCompressLen_trace_short.
    + intros Hp.
      destruct (Z.lt_ge_cases (Z.of_nat (length ib)) 13) as [Hs|Hl];
        [assumption|].
      destruct (FlzCompressLen_long ib ltac:(lia)) as (n & Hn & _).
      congruence.
  - now apply FlzCompressLen_fuel.
Qed.

Lemma returns_from_thirteen_bytes_witness :
  Z.of_nat (length sevens) < 2 ^ 32 /\
  (13 <= Z.of_nat (length sevens) <->
   exists n, FlzCompressLen sevens = Ok n /\ 0 <= n < 2 ^ 32) /\
  (Z.of_nat (length sevens) < 13 <-> FlzCompressLen sevens = Panic) /\
  FlzCompressLen sevens <> OutOfFuel.
Proof.
  split; [vm_compute; reflexivity|].
  apply (returns_from_thirteen_bytes sevens). vm_compute. reflexivity.
Defined.

(** Under Eclipse a payload of 13 bytes and more, below 2 GiB, costs at
    least 80 gas and at most 16 times its literal-only cost, which is less
    than 16.5 gas per byte plus 16: whatever the bytes are, Eclipse charges
    little more than what Regolith charges for a payload without a zero
    byte. *)
Theorem eclipse_gas_bounds (isRegolith : bool) (tx : L1CostData) :
  13 <= Z.of_nat (length (data tx)) < 2 ^ 31 ->
  exists gas,
    l1Gas isRegolith true tx = Ok gas /\
    80 <= gas <= 16 * literals_cost (Z.of_nat (length (data tx))) /\
    2 * gas <= 33 * Z.of_nat (length (data tx)) + 31.
Proof.
  intros Hlen. destruct (estimate_bounds (data tx) Hlen) as (n & Hn & Hb).
  exists (n * 16). rewrite l1Gas_eclipse, Hn. cbn [bind].
  split; [reflexivity|]. split; [lia|].
  assert (Hlc : 32 * literals_cost (Z.of_nat (length (data tx)))
                <= 33 * Z.of_nat (length (data tx)) + 31).
  { unfold literals_cost.
    pose proof (Z.div_mod (Z.of_nat (length (data tx))) 32 ltac:(lia)).
    pose proof (Z.mod_pos_bound (Z.of_nat (length (data tx))) 32 ltac:(lia)).
    destruct (Z.eqb_spec (Z.of_nat (length (data tx)) mod 32) 0); lia. }
  lia.
Qed.

Lemma eclipse_gas_bounds_witness :
  13 <= Z.of_nat (length (data (NewL1CostData emptyTx))) < 2 ^ 31 /\
  exists gas,
    l1Gas false true (NewL1CostData emptyTx) = Ok gas /\
    80 <= gas
       <= 16 * literals_cost (Z.of_nat (length (data (NewL1CostData emptyTx))))
    /\
    2 * gas <= 33 * Z.of_nat (length (data (NewL1CostData emptyTx))) + 31.
Proof.
  split; [vm_compute; split; [discriminate|reflexivity]|].
  apply (eclipse_gas_bounds false (NewL1CostData emptyTx)).
  vm_compute. split; [discriminate|reflexivity].
Defined.

Example eclipse_on_the_test_transaction :
  l1Gas true true (NewL1CostData emptyTx) = Ok 496 /\
  l1Gas true false (NewL1CostData emptyTx) = Ok 480.
Proof. split; reflexivity. Qed.
